(** * Prophet uploader: cartridge synchronisation engine

    A shallow embedding of [src/providers/Uploader.ts] and the properties
    its specification states about it, followed by further properties of
    that file and of the browser request handler of [src/extension.ts].

    JavaScript strings are [string]; arrays are [list]; the two
    module-level variables [firstClean] and [removeFilesMode] are threaded
    explicitly; asynchronous calls to the host ([getDWConfig],
    [window.showWarningMessage]) are nodes of a small interaction tree. *)

From Stdlib Require Import String Ascii List Bool Arith ZArith Lia.
From Stdlib Require Import Permutation.
Import ListNotations.
Open Scope string_scope.

(** ** JavaScript library operations used by the uploader *)

Module JS.

(** [Array.prototype.indexOf] on strings: the first index holding a value
    strictly equal to [x], or [-1]. *)
Fixpoint indexOf (a : list string) (x : string) : Z :=
  match a with
  | [] => (-1)%Z
  | y :: a' =>
      if (y =? x)%string then 0%Z
      else let r := indexOf a' x in
           if (r <? 0)%Z then (-1)%Z else (r + 1)%Z
  end.

(** [Array.prototype.includes] on strings. *)
Definition includes (a : list string) (x : string) : bool :=
  existsb (fun y => (y =? x)%string) a.

(** [Array.prototype.some]. *)
Definition some {A} (a : list A) (p : A -> bool) : bool := existsb p a.

(** [String.prototype.endsWith]. *)
Definition endsWith (s searchString : string) : bool :=
  let n := String.length searchString in
  let len := String.length s in
  if (n <=? len)%nat
  then (substring (len - n) n s =? searchString)%string
  else false.

(** [Array.prototype.join]. *)
Fixpoint join (sep : string) (a : list string) : string :=
  match a with
  | [] => ""
  | x :: a' =>
      match a' with
      | [] => x
      | _ :: _ => x ++ sep ++ join sep a'
      end
  end.

(** The double-quote character, as a one-character string. *)
Definition dq : string := String (ascii_of_nat 34) EmptyString.

(** A template fragment of the shape ["${a.join('", "')}"]. *)
Definition quoted (a : list string) : string :=
  dq ++ join (dq ++ ", " ++ dq) a ++ dq.

End JS.

(** ** [path.basename]

    [basename] is Node's library function.  The development is stated for
    an arbitrary [basename]; [Path.basename] is the POSIX flavour (trailing
    separators are skipped, then the part after the last separator is
    taken), used to run the definitions on concrete paths. *)

Module Path.

Definition is_sep (c : ascii) : bool := (c =? "/")%char.

Fixpoint dropSeps (rev_path : list ascii) : list ascii :=
  match rev_path with
  | c :: r => if is_sep c then dropSeps r else rev_path
  | [] => []
  end.

Fixpoint takeName (rev_path : list ascii) : list ascii :=
  match rev_path with
  | c :: r => if is_sep c then [] else c :: takeName r
  | [] => []
  end.

Definition basename (path : string) : string :=
  string_of_list_ascii
    (rev (takeName (dropSeps (rev (list_ascii_of_string path))))).

End Path.

(** ** Module-level state and the configuration document *)

(** [let removeFilesMode: undefined | 'remove' | 'leave'] holds
    [option FilesMode], [None] being [undefined]. *)
Inductive FilesMode : Type := remove | leave.

(** The fields of the [dw.json] document read by the uploader.  The
    [cartridge] field is [None] when it is not an array. *)
Record DWConfig : Type := mkDWConfig {
  configFilename : string;
  cartridge : option (list string);
  cartridgeResolution : option string
}.

(** [v === s] for a possibly undefined string [v]. *)
Definition strictEq (v : option string) (s : string) : bool :=
  match v with
  | Some x => (x =? s)%string
  | None => false
  end.

(** Truthiness of a possibly undefined string. *)
Definition truthy (v : option string) : bool :=
  match v with
  | Some x => negb (x =? "")%string
  | None => false
  end.

(** ** Asynchronous functions as interaction trees

    An [async] function either returns, or awaits the host: the
    configuration loader [getDWConfig], or the prompt
    [window.showWarningMessage], whose promise resolves to the chosen item
    or to [undefined] when the notification is dismissed. *)

Inductive Ask (A : Type) : Type :=
| Return (a : A)
| AwaitDWConfig (k : DWConfig -> Ask A)
| AwaitWarningMessage (message : string) (items : list string)
                      (k : option string -> Ask A).

Arguments Return {A} a.
Arguments AwaitDWConfig {A} k.
Arguments AwaitWarningMessage {A} message items k.

(** How a promise settles. *)
Inductive Settled (A : Type) : Type :=
| Fulfilled (a : A)
| Rejected (reason : string).

Arguments Fulfilled {A} a.
Arguments Rejected {A} reason.

(** The host's side of the conversation. *)
Record Host : Type := mkHost {
  getDWConfig : Settled DWConfig;
  showWarningMessage : string -> list string -> option string
}.

(** What the host saw during a call. *)
Inductive Interaction : Type :=
| ConfigRequested
| Prompted (message : string) (items : list string).

Fixpoint run {A} (h : Host) (t : Ask A) : Settled A * list Interaction :=
  match t with
  | Return a => (Fulfilled a, [])
  | AwaitDWConfig k =>
      match getDWConfig h with
      | Fulfilled config =>
          let '(r, tr) := run h (k config) in (r, ConfigRequested :: tr)
      | Rejected e => (Rejected e, [ConfigRequested])
      end
  | AwaitWarningMessage message items k =>
      let '(r, tr) := run h (k (showWarningMessage h message items)) in
      (r, Prompted message items :: tr)
  end.

Definition isPrompt (i : Interaction) : bool :=
  match i with
  | Prompted _ _ => true
  | ConfigRequested => false
  end.

(** The prompts shown during a run. *)
Definition prompts (tr : list Interaction) : list Interaction :=
  filter isPrompt tr.

(** ** The divergence resolver *)

(** [diff(a, b)]: the elements of [b] that are not in [a]. *)
Definition diff (a b : list string) : list string :=
  filter (fun i => (JS.indexOf a i <? 0)%Z) b.

Definition askItems : list string :=
  ["Remove All Always"; "Leave All Always"; "Remove All"; "Leave All"].

Definition askMessage (extraOnSB : list string) : string :=
  "Your sandbox has extra cartridge/s. " ++ JS.quoted extraOnSB
    ++ ". What would you like to do?".

Section Resolver.

Variable basename : string -> string.

(** The remote names the resolver treats as extra. *)
Definition extraOnSB (fileNamesOnSandbox cartridgesToUpload : list string)
  : list string :=
  let cartridgesNamesToUpload := map basename cartridgesToUpload in
  filter (fun name => negb (JS.endsWith name ".zip"))
         (diff cartridgesNamesToUpload fileNamesOnSandbox).

(** [askCleanCartridge], with [removeFilesMode] passed in and returned
    next to the delete set. *)
Definition askCleanCartridge (removeFilesMode : option FilesMode)
    (fileNamesOnSandbox cartridgesToUpload : list string)
  : Ask (option FilesMode * list string) :=
  let extra := extraOnSB fileNamesOnSandbox cartridgesToUpload in
  if (List.length extra =? 0)%nat then
    Return (removeFilesMode, [])
  else
    match removeFilesMode with
    | Some remove => Return (removeFilesMode, fileNamesOnSandbox)
    | Some leave => Return (removeFilesMode, [])
    | None =>
        AwaitDWConfig (fun config =>
          if strictEq (cartridgeResolution config) "remove" then
            Return (Some remove, fileNamesOnSandbox)
          else if strictEq (cartridgeResolution config) "leave" then
            Return (Some leave, [])
          else
            AwaitWarningMessage (askMessage extra) askItems
              (fun response =>
                 if truthy response then
                   if strictEq response "Remove All Always" then
                     Return (Some remove, fileNamesOnSandbox)
                   else if strictEq response "Leave All Always" then
                     Return (Some leave, [])
                   else if strictEq response "Remove All" then
                     Return (None, fileNamesOnSandbox)
                   else
                     Return (None, [])
                 else
                   Return (None, [])))
    end.

End Resolver.

(** ** The deduplicator *)

Section Cartridges.

Variable basename : string -> string.

(** The callback passed to [filter] in [removeDuplicateCartridges] pushes
    to two arrays of the enclosing scope; the loop threads them.  The
    result holds the kept cartridges, then [uniqueCartridges] and
    [duplicateCartridges] as they are after the last element. *)
Fixpoint dedupFilter (cartridgesToUpload uniqueCartridges
                        duplicateCartridges : list string)
  : list string * (list string * list string) :=
  match cartridgesToUpload with
  | [] => ([], (uniqueCartridges, duplicateCartridges))
  | cartridge :: rest =>
      let cartridgeName := basename cartridge in
      if negb (JS.includes uniqueCartridges cartridgeName) then
        let '(kept, arrays) :=
          dedupFilter rest (uniqueCartridges ++ [cartridgeName])
                      duplicateCartridges in
        (cartridge :: kept, arrays)
      else
        dedupFilter rest uniqueCartridges
                    (duplicateCartridges ++ [cartridge])
  end.

Definition duplicatesMessage (duplicateCartridges : list string) : string :=
  "Following cartridge/s are duplicates and won't be uploaded. "
    ++ JS.quoted duplicateCartridges ++ ".".

(** [removeDuplicateCartridges]: the kept cartridges and the warnings
    shown to the user. *)
Definition removeDuplicateCartridges (cartridgesToUpload : list string)
  : list string * list string :=
  let '(kept, (_, duplicateCartridges)) :=
    dedupFilter cartridgesToUpload [] [] in
  if (List.length duplicateCartridges =? 0)%nat then (kept, [])
  else (kept, [duplicatesMessage duplicateCartridges]).

(** ** Allow-list filtering *)

(** Lines 167-170: the resolved cartridges whose basename is one of the
    configured names, in discovery order. *)
Definition filterCartridges (dwConfCartridge cartridges : list string)
  : list string :=
  filter (fun cartridge =>
            JS.some dwConfCartridge
                    (fun dwCar => (basename cartridge =? dwCar)%string))
         cartridges.

(** Lines 173-175: the configured names no filtered cartridge carries. *)
Definition missedCartridges (dwConfCartridge filteredCartridges : list string)
  : list string :=
  filter (fun dwCar =>
            negb (JS.some filteredCartridges
                    (fun cartridge => (basename cartridge =? dwCar)%string)))
         dwConfCartridge.

Definition missedMessage (missed : list string) : string :=
  "Cartridge" ++ (if (1 <? List.length missed)%nat then "s" else "") ++ " "
    ++ JS.quoted missed
    ++ " does not exist on file system (or not determined as cartridge/s) while added in configuration. It will be ignored, please restart the uploader once this has been resolved.".

(** Lines 172-178: the warning about configured names that were not
    found, when one is shown. *)
Definition missedWarning (dwConfCartridge filteredCartridges : list string)
  : list string :=
  if negb (List.length filteredCartridges =? List.length dwConfCartridge)%nat
  then [missedMessage (missedCartridges dwConfCartridge filteredCartridges)]
  else [].

(** Lines 166-182: the value assigned to [dwConf.cartridge] before
    deduplication, and the warnings shown on the way.  [cartridges] is
    the content of the [Set] of resolved paths in insertion order. *)
Definition selectCartridges (dwConfCartridge : option (list string))
    (cartridges : list string) : list string * list string :=
  match dwConfCartridge with
  | Some allow =>
      if negb (List.length allow =? 0)%nat then
        let filteredCartridges := filterCartridges allow cartridges in
        (filteredCartridges, missedWarning allow filteredCartridges)
      else (cartridges, [])
  | None => (cartridges, [])
  end.

(** Lines 166-184: the cartridge list handed to the transport. *)
Definition resolveCartridges (dwConfCartridge : option (list string))
    (cartridges : list string) : list string * list string :=
  let '(selected, w1) := selectCartridges dwConfCartridge cartridges in
  let '(unique, w2) := removeDuplicateCartridges selected in
  (unique, (w1 ++ w2)%list).

(** *** First occurrences, as the specification words them

    The element at index [i] is a first occurrence when no element
    before it has the same basename. *)
Definition firstOccurrenceAt (l : list string) (i : nat) (c : string)
  : bool :=
  negb (JS.includes (map basename (firstn i l)) (basename c)).

Definition indexed (l : list string) : list (nat * string) :=
  combine (seq 0 (List.length l)) l.

Definition firstOccurrences (l : list string) : list string :=
  map snd (filter (fun p => firstOccurrenceAt l (fst p) (snd p))
                  (indexed l)).

Definition laterOccurrences (l : list string) : list string :=
  map snd (filter (fun p => negb (firstOccurrenceAt l (fst p) (snd p)))
                  (indexed l)).

End Cartridges.

(** ** The session manager

    One [Uploader] instance, the module-level [firstClean] it shares with
    the process, and what its collaborators have seen of it.  A session is
    the rxjs [Subscription] returned by [subscribe] in
    [loadUploaderConfig]; rxjs closes a subscription when it is
    unsubscribed, when its source errors and when it completes, and a
    closed subscription delivers nothing further. *)

Inductive Command : Type := enable_upload | clean_upload | disable_upload.

(** Calls on the [OutputChannel]. *)
Inductive OutputCall : Type :=
| appendLine (line : string)
| show
| dispose.

(** A value caught by the error callback: an [Error] (with its [stack]
    rendered as a string) or anything else. *)
Inductive Thrown : Type :=
| ErrorObject (text stack : string)
| OtherValue (text : string).

Definition thrownText (err : Thrown) : string :=
  match err with
  | ErrorObject text _ => text
  | OtherValue text => text
  end.

(** The settings of [extension.prophet] at the time they are read;
    [clean_on_start] is the value after [Boolean(...)]. *)
Record Settings : Type := mkSettings {
  clean_on_start : bool;
  ignore_list : list string
}.

(** One call of [uploadServer.init]. *)
Record InitCall : Type := mkInitCall {
  init_session : nat;
  init_config : DWConfig;
  init_cleanOnStart : bool;
  init_ignoreList : list string
}.

Record World : Type := mkWorld {
  firstClean : bool;
  prevState : option bool;
  uploaderSubscription : option nat;
  commandSubs : bool;
  configSubscription : bool;
  openSubscriptions : list nat;
  nextSubscription : nat;
  outputChannel : list OutputCall;
  warnings : list string;
  inits : list InitCall;
  cleanOnStartReads : nat
}.

(** The world right after [new Uploader(...)], in a fresh process. *)
Definition newUploader : World :=
  {| firstClean := true;
     prevState := None;
     uploaderSubscription := None;
     commandSubs := true;
     configSubscription := false;
     openSubscriptions := [];
     nextSubscription := 0;
     outputChannel := [];
     warnings := [];
     inits := [];
     cleanOnStartReads := 0 |}.

Definition set_prevState (v : option bool) (w : World) : World :=
  mkWorld (firstClean w) v (uploaderSubscription w) (commandSubs w)
          (configSubscription w) (openSubscriptions w) (nextSubscription w)
          (outputChannel w) (warnings w) (inits w) (cleanOnStartReads w).

Definition set_uploaderSubscription (v : option nat) (w : World) : World :=
  mkWorld (firstClean w) (prevState w) v (commandSubs w)
          (configSubscription w) (openSubscriptions w) (nextSubscription w)
          (outputChannel w) (warnings w) (inits w) (cleanOnStartReads w).

Definition set_listeners (commands configuration : bool) (w : World) : World :=
  mkWorld (firstClean w) (prevState w) (uploaderSubscription w) commands
          configuration (openSubscriptions w) (nextSubscription w)
          (outputChannel w) (warnings w) (inits w) (cleanOnStartReads w).

Definition set_subscriptions (open : list nat) (next : nat) (w : World)
  : World :=
  mkWorld (firstClean w) (prevState w) (uploaderSubscription w)
          (commandSubs w) (configSubscription w) open next
          (outputChannel w) (warnings w) (inits w) (cleanOnStartReads w).

Definition output (c : OutputCall) (w : World) : World :=
  mkWorld (firstClean w) (prevState w) (uploaderSubscription w)
          (commandSubs w) (configSubscription w) (openSubscriptions w)
          (nextSubscription w) (outputChannel w ++ [c]) (warnings w)
          (inits w) (cleanOnStartReads w).

Definition warn (messages : list string) (w : World) : World :=
  mkWorld (firstClean w) (prevState w) (uploaderSubscription w)
          (commandSubs w) (configSubscription w) (openSubscriptions w)
          (nextSubscription w) (outputChannel w) (warnings w ++ messages)
          (inits w) (cleanOnStartReads w).

(** [subscription.unsubscribe()]: closes it; a no-op when already closed. *)
Definition unsubscribe (s : nat) (w : World) : World :=
  set_subscriptions (List.remove Nat.eq_dec s (openSubscriptions w))
                    (nextSubscription w) w.

(** [observable.subscribe(...)]: a new open subscription. *)
Definition subscribe (w : World) : nat * World :=
  let s := nextSubscription w in
  (s, set_subscriptions (s :: openSubscriptions w) (S s) w).

Definition isOpen (s : nat) (w : World) : bool :=
  existsb (Nat.eqb s) (openSubscriptions w).

(** The getter [cleanOnStart]: the value, and the world with [firstClean]
    cleared; the setting is read on the first access only. *)
Definition cleanOnStart (settings : Settings) (w : World) : bool * World :=
  if firstClean w then
    (clean_on_start settings,
     mkWorld false (prevState w) (uploaderSubscription w) (commandSubs w)
             (configSubscription w) (openSubscriptions w)
             (nextSubscription w) (outputChannel w) (warnings w) (inits w)
             (S (cleanOnStartReads w)))
  else (true, w).

Definition uploadServer_init (c : InitCall) (w : World) : World :=
  mkWorld (firstClean w) (prevState w) (uploaderSubscription w)
          (commandSubs w) (configSubscription w) (openSubscriptions w)
          (nextSubscription w) (outputChannel w) (warnings w)
          (inits w ++ [c]) (cleanOnStartReads w).

(** Lines 146-152 of [loadUploaderConfig]: the previous session, if any,
    is unsubscribed and forgotten. *)
Definition stopPrevious (w : World) : World :=
  match uploaderSubscription w with
  | Some s =>
      output (appendLine "Restarting")
             (set_uploaderSubscription None (unsubscribe s w))
  | None => output (appendLine "Starting...") w
  end.

(** [loadUploaderConfig]: the synchronous part; the callbacks of the
    pipeline run later, on the events below. *)
Definition loadUploaderConfig (w : World) : World :=
  let '(s, w') := subscribe (stopPrevious w) in
  set_uploaderSubscription (Some s) w'.

(** The block shared by [disable.upload] and the enabled flag going off. *)
Definition stopSession (w : World) : World :=
  match uploaderSubscription w with
  | Some s =>
      set_uploaderSubscription None
        (unsubscribe s (output (appendLine "Stopping") w))
  | None => w
  end.

(** Lines 43-53: the subscriber of the command bus. *)
Definition onCommand (command : Command) (w : World) : World :=
  match command with
  | clean_upload | enable_upload => loadUploaderConfig w
  | disable_upload => stopSession w
  end.

Definition sameState (isProphetUploadEnabled : bool) (prev : option bool)
  : bool :=
  match prev with
  | Some b => Bool.eqb isProphetUploadEnabled b
  | None => false
  end.

(** Lines 263-278: the configuration listener. *)
Definition onDidChangeConfiguration (isProphetUploadEnabled : bool)
    (w : World) : World :=
  if negb (sameState isProphetUploadEnabled (prevState w)) then
    let w1 := set_prevState (Some isProphetUploadEnabled) w in
    if isProphetUploadEnabled then loadUploaderConfig w1 else stopSession w1
  else w.

(** Lines 263-288: the body of the observable returned by [start]. *)
Definition start (isUploadEnabled : bool) (w : World) : World :=
  let w1 := set_listeners (commandSubs w) true w in
  let w2 := set_prevState (Some isUploadEnabled) w1 in
  if isUploadEnabled then loadUploaderConfig w2
  else output (appendLine "Uploader disabled via configuration") w2.

(** Lines 289-298: the teardown of that observable. *)
Definition shutDown (w : World) : World :=
  let w1 := output (appendLine "Shutting down...") w in
  let w2 := set_listeners false false w1 in
  let w3 := match uploaderSubscription w2 with
            | Some s => unsubscribe s w2
            | None => w2
            end in
  output dispose w3.

(** Line 157. *)
Definition onDwConf (dwConf : DWConfig) (w : World) : World :=
  output (appendLine ("Using config file '" ++ configFilename dwConf ++ "'")) w.

(** Lines 198-204: the error callback. *)
Definition onError (err : Thrown) (w : World) : World :=
  let w1 := output show w in
  let w2 := output (appendLine ("Error: " ++ thrownText err)) w1 in
  match err with
  | ErrorObject _ stack => output (appendLine ("Error: " ++ stack)) w2
  | OtherValue _ => w2
  end.

(** Lines 205-208: the completion callback. *)
Definition onComplete (w : World) : World :=
  output (appendLine "Error: completed!") (output show w).

Section Pipeline.

Variable basename : string -> string.

(** Lines 165-192: the cartridges are selected and deduplicated, and the
    transport is started. *)
Definition onCartridges (s : nat) (dwConf : DWConfig)
    (cartridges : list string) (settings : Settings) (w : World) : World :=
  let '(final, messages) :=
    resolveCartridges basename (cartridge dwConf) cartridges in
  let w1 := warn messages w in
  let '(clean, w2) := cleanOnStart settings w1 in
  uploadServer_init
    {| init_session := s;
       init_config := mkDWConfig (configFilename dwConf) (Some final)
                                 (cartridgeResolution dwConf);
       init_cleanOnStart := clean;
       init_ignoreList := ignore_list settings |}
    w2.

(** What reaches the uploader from outside. *)
Inductive Event : Type :=
| CommandBus (command : Command)
| Started (isUploadEnabled : bool)
| ConfigurationChanged (isProphetUploadEnabled : bool)
| DwConfLoaded (s : nat) (dwConf : DWConfig)
| CartridgesResolved (s : nat) (dwConf : DWConfig)
                     (cartridges : list string) (settings : Settings)
| SessionFailed (s : nat) (err : Thrown)
| SessionCompleted (s : nat)
| Disposed.

Definition step (e : Event) (w : World) : World :=
  match e with
  | CommandBus command =>
      if commandSubs w then onCommand command w else w
  | Started isUploadEnabled => start isUploadEnabled w
  | ConfigurationChanged enabled =>
      if configSubscription w then onDidChangeConfiguration enabled w
      else w
  | DwConfLoaded s dwConf =>
      if isOpen s w then onDwConf dwConf w else w
  | CartridgesResolved s dwConf cartridges settings =>
      if isOpen s w then onCartridges s dwConf cartridges settings w
      else w
  | SessionFailed s err =>
      if isOpen s w then unsubscribe s (onError err w) else w
  | SessionCompleted s =>
      if isOpen s w then unsubscribe s (onComplete w) else w
  | Disposed => shutDown w
  end.

Definition runEvents (events : list Event) (w : World) : World :=
  fold_left (fun w e => step e w) events w.

(** The events raised by a session's own pipeline, as opposed to the
    commands, the start and the configuration changes that come from
    the user and the host. *)
Definition fromSession (e : Event) : bool :=
  match e with
  | DwConfLoaded _ _ | CartridgesResolved _ _ _ _
  | SessionFailed _ _ | SessionCompleted _ => true
  | _ => false
  end.

End Pipeline.

(** No session is running. *)
Definition Stopped (w : World) : Prop := openSubscriptions w = [].

(** At most one session is running, and it is the one the uploader
    holds in [uploaderSubscription]. *)
Definition AtMostOneSession (w : World) : Prop :=
  Stopped w
  \/ exists s, openSubscriptions w = [s] /\ uploaderSubscription w = Some s.

(** ** Repeated calls of the resolver

    The transport calls [askCleanCartridge] once per session start; the
    module-level [removeFilesMode] carries over from one call to the next.
    A rejected call has assigned nothing. *)

Record Call : Type := mkCall {
  call_host : Host;
  call_fileNamesOnSandbox : list string;
  call_cartridgesToUpload : list string
}.

Section Calls.

Variable basename : string -> string.

Definition askOnce (removeFilesMode : option FilesMode) (c : Call)
  : option FilesMode * (Settled (list string) * list Interaction) :=
  match run (call_host c)
            (askCleanCartridge basename removeFilesMode
               (call_fileNamesOnSandbox c) (call_cartridgesToUpload c)) with
  | (Fulfilled (mode', toDelete), tr) => (mode', (Fulfilled toDelete, tr))
  | (Rejected e, tr) => (removeFilesMode, (Rejected e, tr))
  end.

Fixpoint askAll (removeFilesMode : option FilesMode) (cs : list Call)
  : option FilesMode * list (Settled (list string) * list Interaction) :=
  match cs with
  | [] => (removeFilesMode, [])
  | c :: cs' =>
      let '(mode', r) := askOnce removeFilesMode c in
      let '(mode'', rs) := askAll mode' cs' in
      (mode'', r :: rs)
  end.

(** What a call returns while the policy [mode] is in force. *)
Definition stickyAnswer (mode : FilesMode) (c : Call) : list string :=
  match extraOnSB basename (call_fileNamesOnSandbox c)
                  (call_cartridgesToUpload c) with
  | [] => []
  | _ :: _ =>
      match mode with
      | remove => call_fileNamesOnSandbox c
      | leave => []
      end
  end.

End Calls.

(** A host whose configuration has no preference and whose user dismisses
    every prompt. *)
Definition silentHost : Host :=
  {| getDWConfig := Fulfilled (mkDWConfig "dw.json" None None);
     showWarningMessage := fun _ _ => None |}.

(** A host whose user picks the item [choice] at every prompt. *)
Definition answeringHost (choice : string) : Host :=
  {| getDWConfig := Fulfilled (mkDWConfig "dw.json" None None);
     showWarningMessage := fun _ _ => Some choice |}.

(** A host whose configuration document carries a preference. *)
Definition configuredHost (resolution : string) : Host :=
  {| getDWConfig := Fulfilled (mkDWConfig "dw.json" None (Some resolution));
     showWarningMessage := fun _ _ => None |}.

(** ** More of the JavaScript string library

    Used by [extension.ts].  [split] is given for a non-empty separator,
    as every call site passes one; [replace] takes its replacement
    literally, as the one call site passes a text without [$]. *)

Module Str.

(** [s.substr(1)]. *)
Definition substr1 (s : string) : string :=
  match s with
  | String _ s' => s'
  | EmptyString => ""
  end.

(** [String.prototype.includes]. *)
Fixpoint includes (s searchString : string) : bool :=
  if prefix searchString s then true
  else match s with
       | String _ s' => includes s' searchString
       | EmptyString => false
       end.

Definition finish (cur : list ascii) : string :=
  string_of_list_ascii (rev cur).

(** The scan behind [split]: [cur] holds, reversed, the characters of the
    piece being read, and [skip] counts the characters of a separator
    still to be passed over. *)
Fixpoint splitFrom (separator s : string) (skip : nat) (cur : list ascii)
    {struct s} : list string :=
  match skip with
  | S k =>
      match s with
      | String _ s' => splitFrom separator s' k cur
      | EmptyString => [finish cur]
      end
  | O =>
      match s with
      | String c s' =>
          if prefix separator s then
            finish cur
              :: splitFrom separator s' (String.length separator - 1) []
          else splitFrom separator s' 0 (c :: cur)
      | EmptyString => [finish cur]
      end
  end.

(** [String.prototype.split] with a non-empty string separator. *)
Definition split (s separator : string) : list string :=
  splitFrom separator s 0 [].

(** [String.prototype.replace] with a string pattern: the first
    occurrence is replaced. *)
Fixpoint replace (s pattern replacement : string) : string :=
  if prefix pattern s then
    replacement
      ++ substring (String.length pattern)
                   (String.length s - String.length pattern) s
  else match s with
       | String c s' => String c (replace s' pattern replacement)
       | EmptyString => ""
       end.

End Str.

(** ** Opening files from the browser ([extension.ts])

    [path.join] and [path.sep] are Node's; [existsSync] is the file
    system.  All three are parameters. *)

(** What the request handler of [initializeToolkitActions] does to the
    outside. *)
Inductive ToolkitEffect : Type :=
| writeHead200
| endOk
| showErrorMessage (message : string)
| showToolkitWarning (message : string)
| openFile (path : string).

Section Toolkit.

Variable pathJoin : string -> string -> string.
Variable sep : string.
Variable existsSync : string -> bool.

(** [convertDebuggerPathToClient]: the client path, and the error
    messages shown. *)
Definition convertDebuggerPathToClient (debuggerPath : string)
    (cartridges : list string) : string * list ToolkitEffect :=
  let debuggerPath := Str.substr1 debuggerPath in
  let debuggerSep := Str.split debuggerPath "/" in
  let cartridgeName := hd "" debuggerSep in
  let debuggerSep := tl debuggerSep in
  match find (fun cartridge => JS.endsWith cartridge cartridgeName)
             cartridges with
  | Some cartPath =>
      if negb (cartPath =? "")%string then
        (pathJoin cartPath (JS.join sep debuggerSep), [])
      else ("", [showErrorMessage "Unable match cartridge"])
  | None => ("", [showErrorMessage "Unable match cartridge"])
  end.

(** Line 380: [req.url.split('/target=')[1].split('&')[0]]; [None] when
    the second piece is [undefined] and [split] is called on it, which
    throws. *)
Definition requestedTarget (url : string) : option string :=
  match nth_error (Str.split url "/target=") 1 with
  | Some piece => Some (hd "" (Str.split piece "&"))
  | None => None
  end.

(** Lines 377-405: the inner callback of the request handler, run once
    the cartridges of the request are resolved.  The result holds what it
    did, and whether it returned ([true]) or threw ([false]).  The guard
    around it is [onRequest], below. *)
Definition handleRequest (url : option string) (cartridges : list string)
  : list ToolkitEffect * bool :=
  let answered := [writeHead200; endOk] in
  if truthy url && Str.includes (match url with Some u => u | None => "" end)
                                "/target" then
    match requestedTarget (match url with Some u => u | None => "" end) with
    | None => (answered, false)
    | Some reqUrl =>
        let '(clientFilePath, shown) :=
          convertDebuggerPathToClient reqUrl cartridges in
        if negb (clientFilePath =? "")%string then
          let filePaths :=
            [clientFilePath; Str.replace clientFilePath ".js" ".ds"] in
          match find existsSync filePaths with
          | Some filePath =>
              if negb (filePath =? "")%string then
                ((answered ++ shown ++ [openFile filePath])%list, true)
              else
                ((answered ++ shown
                    ++ [showToolkitWarning
                          ("Unable to find '" ++ reqUrl ++ "'")])%list,
                 true)
          | None =>
              ((answered ++ shown
                  ++ [showToolkitWarning
                        ("Unable to find '" ++ reqUrl ++ "'")])%list,
               true)
          end
        else
          ((answered ++ shown
              ++ [showToolkitWarning
                    ("Unable to find '" ++ reqUrl ++ "'.")])%list,
           true)
    end
  else (answered, true).

End Toolkit.

(** ** More predicates on the uploader's state *)

(** The handles in use are older than the next one to be handed out. *)
Definition FreshHandles (w : World) : Prop :=
  (forall s, In s (openSubscriptions w) -> s < nextSubscription w)
  /\ (forall s, uploaderSubscription w = Some s -> s < nextSubscription w).

(** The uploader has been shut down: it listens to nothing and runs
    nothing. *)
Definition ShutDown (w : World) : Prop :=
  commandSubs w = false /\ configSubscription w = false /\ Stopped w.

(** The events that run the body of [start]. *)
Definition isStart (e : Event) : bool :=
  match e with
  | Started _ => true
  | _ => false
  end.

(** A file system on which only the [.ds] scripts exist. *)
Definition existsSync_ds (path : string) : bool := JS.endsWith path ".ds".

(** ** The process: one uploader per snapshot of the workspace folders

    [Uploader.initialize] keeps, in [subs], the subscription of the
    latest uploader's [start]; [updateFolders] tears it down and builds a
    new uploader whenever the workspace folders change.  The command bus
    and [firstClean] belong to the module: a command reaches every
    uploader still subscribed to the bus, oldest first, and every
    uploader reads and writes the one [firstClean].  The model covers the
    process up to the disposal of the extension context. *)

Definition set_firstClean (v : bool) (w : World) : World :=
  mkWorld v (prevState w) (uploaderSubscription w) (commandSubs w)
          (configSubscription w) (openSubscriptions w) (nextSubscription w)
          (outputChannel w) (warnings w) (inits w) (cleanOnStartReads w).

Record Process : Type := mkProcess {
  moduleFirstClean : bool;
  uploaders : list World;
  subs : bool
}.

(** The uploaders are listed latest first; [subs] tells whether the
    latest one's [start] is subscribed. *)
Definition startOfProcess : Process :=
  {| moduleFirstClean := true; uploaders := []; subs := false |}.

Inductive ProcessEvent : Type :=
| CommandIssued (command : Command)
| SettingsChanged (isProphetUploadEnabled : bool)
| FromSession (uploader : nat) (e : Event)
| WorkspaceFoldersChanged (hasFolders isUploadEnabled : bool).

Section ProcessSteps.

Variable basename : string -> string.

(** One uploader handles [e], on the module's [firstClean]. *)
Definition deliver (e : Event) (w : World) (st : bool * list World)
  : bool * list World :=
  let w' := step basename e (set_firstClean (fst st) w) in
  (firstClean w', w' :: snd st).

(** Every uploader handles [e], the oldest first. *)
Definition broadcast (e : Event) (fc : bool) (ws : list World)
  : bool * list World :=
  fold_right (deliver e) (fc, []) ws.

(** The uploader at position [i] handles [e]. *)
Fixpoint deliverTo (i : nat) (e : Event) (fc : bool) (ws : list World)
  : bool * list World :=
  match ws with
  | [] => (fc, [])
  | w :: older =>
      match i with
      | O => deliver e w (fc, older)
      | S j => let '(fc', older') := deliverTo j e fc older in
               (fc', w :: older')
      end
  end.

(** Lines 228-238: [updateFolders]. *)
Definition updateFolders (hasFolders isUploadEnabled : bool) (p : Process)
  : Process :=
  let '(fc, ws) :=
    if subs p then deliverTo 0 Disposed (moduleFirstClean p) (uploaders p)
    else (moduleFirstClean p, uploaders p) in
  if hasFolders then
    let '(fc', ws') :=
      deliver (Started isUploadEnabled) newUploader (fc, ws) in
    mkProcess fc' ws' true
  else mkProcess fc ws false.

Definition processStep (e : ProcessEvent) (p : Process) : Process :=
  match e with
  | CommandIssued command =>
      let '(fc, ws) :=
        broadcast (CommandBus command) (moduleFirstClean p) (uploaders p) in
      mkProcess fc ws (subs p)
  | SettingsChanged enabled =>
      let '(fc, ws) :=
        broadcast (ConfigurationChanged enabled) (moduleFirstClean p)
                  (uploaders p) in
      mkProcess fc ws (subs p)
  | FromSession i e =>
      if fromSession e then
        let '(fc, ws) :=
          deliverTo i e (moduleFirstClean p) (uploaders p) in
        mkProcess fc ws (subs p)
      else p
  | WorkspaceFoldersChanged hasFolders isUploadEnabled =>
      updateFolders hasFolders isUploadEnabled p
  end.

Definition runProcess (events : list ProcessEvent) (p : Process) : Process :=
  fold_left (fun p e => processStep e p) events p.

End ProcessSteps.

(** Every session open in the process, over all its uploaders. *)
Definition openInProcess (p : Process) : list nat :=
  concat (map openSubscriptions (uploaders p)).

(** Only the latest uploader may be running: it holds at most one
    session, every older uploader has been shut down, and so has the
    latest one when [subs] is not set. *)
Definition OneLiveUploader (live : bool) (ws : list World) : Prop :=
  match ws with
  | [] => True
  | latest :: older =>
      AtMostOneSession latest
      /\ Forall ShutDown older
      /\ (live = false -> ShutDown latest)
  end.

(** [w'] is no more alive than [w]. *)
Definition Keeps (w w' : World) : Prop :=
  (ShutDown w -> ShutDown w')
  /\ (AtMostOneSession w -> AtMostOneSession w').

(** Counting over all the uploaders of the process: the reads of
    [clean.on.start], the calls of [uploadServer.init], and those of them
    that were handed [cleanOnStart = false]. *)
Definition falseInits (w : World) : nat :=
  List.length (filter (fun c => negb (init_cleanOnStart c)) (inits w)).

Definition initCalls (w : World) : nat := List.length (inits w).

Definition totalOver (f : World -> nat) (ws : list World) : nat :=
  list_sum (map f ws).

(** How a stretch of deliveries may move the module's [firstClean] and
    the counts: either nothing is read and no call with [false] is made,
    or [firstClean] goes from [true] to [false] with one read and at most
    one call with [false]. *)
Definition ReadsAtMostOnce (fc : bool) (before : list World)
    (fc' : bool) (after : list World) : Prop :=
  (fc' = fc
   /\ totalOver cleanOnStartReads after = totalOver cleanOnStartReads before
   /\ totalOver falseInits after = totalOver falseInits before
   /\ (fc = true -> totalOver initCalls after = totalOver initCalls before))
  \/ (fc = true /\ fc' = false
      /\ totalOver cleanOnStartReads after
         = S (totalOver cleanOnStartReads before)
      /\ totalOver falseInits after <= S (totalOver falseInits before)).

(** The state of the process as far as [clean.on.start] goes. *)
Definition CleanReadOncePerProcess (fc : bool) (ws : list World) : Prop :=
  (fc = true /\ totalOver cleanOnStartReads ws = 0
   /\ totalOver falseInits ws = 0 /\ totalOver initCalls ws = 0)
  \/ (fc = false /\ totalOver cleanOnStartReads ws <= 1
      /\ totalOver falseInits ws <= 1).

(** ** The request handler as a whole ([extension.ts], lines 366-410)

    [workspaceFolders] holds the URI schemes of [workspace.workspaceFolders],
    [None] when it is [undefined].  Without workspace folders the handler
    returns [empty()] and never touches the response. *)

Section ToolkitServer.

Variable pathJoin : string -> string -> string.
Variable sep : string.
Variable existsSync : string -> bool.





End ToolkitServer.

(** ** [firstClean] and the first call of the transport *)

(** How a stretch of deliveries may move the module's [firstClean] and
    the number of calls of [uploadServer.init]: nothing changes, or a
    call is made and [firstClean] is cleared. *)
Definition InitsGrow (fc : bool) (before : list World)
    (fc' : bool) (after : list World) : Prop :=
  (fc' = fc /\ totalOver initCalls after = totalOver initCalls before)
  \/ (fc' = false
      /\ totalOver initCalls before < totalOver initCalls after).

(** [firstClean] is set exactly as long as the transport has never been
    started. *)
Definition FirstCleanUntilFirstInit (fc : bool) (ws : list World) : Prop :=
  fc = true <-> totalOver initCalls ws = 0.

(** * Properties *)

(** ** Library operations *)

Lemma indexOf_negative (a : list string) (x : string) :
  (JS.indexOf a x <? 0)%Z = negb (JS.includes a x).
Proof.
  induction a as [|y a IH]; simpl; [reflexivity|].
  destruct (y =? x)%string; simpl; [reflexivity|].
  rewrite <- IH. destruct (JS.indexOf a x <? 0)%Z eqn:E; [reflexivity|].
  apply Z.ltb_ge in E. apply Z.ltb_ge. lia.
Qed.

Lemma includes_In (a : list string) (x : string) :
  JS.includes a x = true <-> In x a.
Proof.
  unfold JS.includes. rewrite existsb_exists. split.
  - intros [y [Hy E]]. apply String.eqb_eq in E. now subst.
  - intros H. exists x. split; [assumption|apply String.eqb_refl].
Qed.

Lemma includes_false (a : list string) (x : string) :
  JS.includes a x = false <-> ~ In x a.
Proof.
  rewrite <- includes_In. destruct (JS.includes a x); split; intros H;
    try reflexivity; try discriminate; try (intros H'; discriminate).
  exfalso. now apply H.
Qed.

Lemma In_diff (a b : list string) (x : string) :
  In x (diff a b) <-> In x b /\ ~ In x a.
Proof.
  unfold diff. rewrite filter_In, indexOf_negative, negb_true_iff.
  now rewrite includes_false.
Qed.

Lemma In_extraOnSB (basename : string -> string)
    (remote local : list string) (x : string) :
  In x (extraOnSB basename remote local) <->
  In x remote /\ ~ In x (map basename local) /\ JS.endsWith x ".zip" = false.
Proof.
  unfold extraOnSB. rewrite filter_In, In_diff, negb_true_iff. tauto.
Qed.

Lemma length_zero_nil {A} (l : list A) :
  (List.length l =? 0)%nat = true <-> l = [].
Proof.
  destruct l; simpl; split; intros H; try reflexivity; discriminate.
Qed.

(** ** The resolver, case by case *)

Section ResolverFacts.

Variable basename : string -> string.
Variables remote local : list string.

Let extra := extraOnSB basename remote local.

Lemma ask_no_extra (mode : option FilesMode) :
  extra = [] ->
  askCleanCartridge basename mode remote local = Return (mode, []).
Proof.
  intros H. unfold askCleanCartridge. fold extra. now rewrite H.
Qed.

Lemma ask_sticky (mode : FilesMode) :
  extra <> [] ->
  askCleanCartridge basename (Some mode) remote local =
  Return (Some mode, match mode with remove => remote | leave => [] end).
Proof.
  intros H. unfold askCleanCartridge. fold extra.
  destruct extra; [contradiction|]. now destruct mode.
Qed.

Lemma ask_unset :
  extra <> [] ->
  exists k, askCleanCartridge basename None remote local = AwaitDWConfig k
    /\ forall config,
         k config =
         if strictEq (cartridgeResolution config) "remove" then
           Return (Some remove, remote)
         else if strictEq (cartridgeResolution config) "leave" then
           Return (Some leave, [])
         else
           AwaitWarningMessage (askMessage extra) askItems
             (fun response =>
                if truthy response then
                  if strictEq response "Remove All Always" then
                    Return (Some remove, remote)
                  else if strictEq response "Leave All Always" then
                    Return (Some leave, [])
                  else if strictEq response "Remove All" then
                    Return (None, remote)
                  else Return (None, [])
                else Return (None, [])).
Proof.
  intros H. unfold askCleanCartridge. fold extra.
  destruct extra; [contradiction|]. simpl. eexists. split; reflexivity.
Qed.

(** Whatever the host does, a call that returns hands back nothing or
    the listing it was given. *)
Lemma ask_all_or_nothing (mode : option FilesMode) (h : Host)
    (mode' : option FilesMode) (toDelete : list string)
    (tr : list Interaction) :
  run h (askCleanCartridge basename mode remote local)
    = (Fulfilled (mode', toDelete), tr) ->
  toDelete = [] \/ (toDelete = remote /\ extra <> []).
Proof.
  unfold askCleanCartridge. fold extra.
  destruct extra as [|e es] eqn:E; simpl.
  - intros H. inversion H. now left.
  - assert (N : e :: es <> []) by discriminate.
    destruct mode as [[|]|]; simpl.
    + intros H. inversion H. now right.
    + intros H. inversion H. now left.
    + destruct (getDWConfig h) as [config|reason]; [|discriminate].
      destruct (strictEq (cartridgeResolution config) "remove"); simpl.
      { intros H. inversion H. now right. }
      destruct (strictEq (cartridgeResolution config) "leave"); simpl.
      { intros H. inversion H. now left. }
      destruct (truthy _); simpl; [|intros H; inversion H; now left].
      destruct (strictEq _ "Remove All Always"); simpl;
        [intros H; inversion H; now right|].
      destruct (strictEq _ "Leave All Always"); simpl;
        [intros H; inversion H; now left|].
      destruct (strictEq _ "Remove All"); simpl;
        intros H; inversion H; auto.
Qed.

End ResolverFacts.

(** ** Archive entries (C1) *)




(** ** Policy stickiness (C2) *)

(** C2, as stated, fails: with the policy [remove] in force and a remote
    listing that holds nothing extra, the call returns the empty set, not
    the listing. *)
Lemma sticky_remove_without_extra_returns_nothing :
  run silentHost
      (askCleanCartridge Path.basename (Some remove)
                         ["app_core"] ["/ws/cartridges/app_core"])
    = (Fulfilled (Some remove, []), [])
  /\ @nil string <> ["app_core"].
Proof.
  split; [reflexivity|discriminate].
Qed.

Lemma askOnce_sticky (basename : string -> string) (m : FilesMode)
    (c : Call) :
  askOnce basename (Some m) c
    = (Some m, (Fulfilled (stickyAnswer basename m c), [])).
Proof.
  unfold askOnce, stickyAnswer.
  destruct (extraOnSB basename (call_fileNamesOnSandbox c)
                      (call_cartridgesToUpload c)) as [|x xs] eqn:E.
  - now rewrite (ask_no_extra basename _ _ (Some m) E).
  - rewrite (ask_sticky basename _ _ m) by (rewrite E; discriminate).
    reflexivity.
Qed.

(** C2, amended: once [removeFilesMode] is set - by the configuration's
    [cartridgeResolution] or by an "Always" answer - every later call, on
    any inputs and with any host, asks nothing (neither the configuration
    nor the user), leaves the policy as it is, and returns: the empty set
    when no non-archive remote name is absent locally; otherwise the whole
    remote listing under [remove] and the empty set under [leave]. *)
Theorem policy_sticky (basename : string -> string) :
  (forall (m : FilesMode) (cs : list Call),
      askAll basename (Some m) cs
        = (Some m,
           map (fun c => (Fulfilled (stickyAnswer basename m c), [])) cs))
  /\ (forall (c : Call) (config : DWConfig),
        extraOnSB basename (call_fileNamesOnSandbox c)
                  (call_cartridgesToUpload c) <> [] ->
        getDWConfig (call_host c) = Fulfilled config ->
        (cartridgeResolution config = Some "remove" ->
         fst (askOnce basename None c) = Some remove)
        /\ (cartridgeResolution config = Some "leave" ->
            fst (askOnce basename None c) = Some leave)
        /\ (cartridgeResolution config = None ->
            showWarningMessage (call_host c)
              (askMessage (extraOnSB basename (call_fileNamesOnSandbox c)
                                     (call_cartridgesToUpload c)))
              askItems = Some "Remove All Always" ->
            fst (askOnce basename None c) = Some remove)
        /\ (cartridgeResolution config = None ->
            showWarningMessage (call_host c)
              (askMessage (extraOnSB basename (call_fileNamesOnSandbox c)
                                     (call_cartridgesToUpload c)))
              askItems = Some "Leave All Always" ->
            fst (askOnce basename None c) = Some leave)).
Proof.
  split.
  - intros m cs. induction cs as [|c cs IH]; simpl; [reflexivity|].
    rewrite askOnce_sticky, IH. reflexivity.
  - intros c config X G.
    destruct (ask_unset basename _ _ X) as [k [Hk Hc]].
    unfold askOnce. rewrite Hk. simpl. rewrite G, Hc.
    repeat split.
    + intros C. rewrite C. reflexivity.
    + intros C. rewrite C. reflexivity.
    + intros C A. rewrite C. simpl. rewrite A. reflexivity.
    + intros C A. rewrite C. simpl. rewrite A. reflexivity.
Qed.

Lemma policy_sticky_witness :
  fst (askOnce Path.basename None
         (mkCall (answeringHost "Remove All Always")
                 ["app_core"; "app_stale"] ["/ws/cartridges/app_core"]))
    = Some remove
  /\ askAll Path.basename (Some remove)
       [mkCall silentHost ["app_core"; "app_stale"]
               ["/ws/cartridges/app_core"];
        mkCall silentHost ["app_core"] ["/ws/cartridges/app_core"]]
     = (Some remove,
        [(Fulfilled ["app_core"; "app_stale"], []); (Fulfilled [], [])]).
Proof.
  split.
  - apply (proj2 (policy_sticky Path.basename)
             (mkCall (answeringHost "Remove All Always")
                     ["app_core"; "app_stale"] ["/ws/cartridges/app_core"])
             (mkDWConfig "dw.json" None None));
      [vm_compute; discriminate | reflexivity | reflexivity | reflexivity].
  - exact (proj1 (policy_sticky Path.basename) remove
             [mkCall silentHost ["app_core"; "app_stale"]
                     ["/ws/cartridges/app_core"];
              mkCall silentHost ["app_core"] ["/ws/cartridges/app_core"]]).
Defined.

(** ** Default safety (C3) *)

(** C3: with some non-archive remote name absent locally, no policy set, a
    configuration without [cartridgeResolution] and a prompt the user
    dismisses, the call asks once and returns the empty delete set; the
    policy stays unset. *)
Theorem dismissed_prompt_deletes_nothing (basename : string -> string)
    (remote local : list string) (h : Host) (config : DWConfig) :
  (exists n, In n remote /\ ~ In n (map basename local)
             /\ JS.endsWith n ".zip" = false) ->
  getDWConfig h = Fulfilled config ->
  cartridgeResolution config = None ->
  (forall message items, showWarningMessage h message items = None) ->
  run h (askCleanCartridge basename None remote local)
    = (Fulfilled (None, []),
       [ConfigRequested;
        Prompted (askMessage (extraOnSB basename remote local)) askItems]).
Proof.
  intros [n Hn] G C D.
  assert (X : extraOnSB basename remote local <> []).
  { apply In_extraOnSB in Hn. intros E. rewrite E in Hn. contradiction. }
  destruct (ask_unset basename remote local X) as [k [Hk Hc]].
  rewrite Hk. simpl. rewrite G, Hc, C. simpl. rewrite D. reflexivity.
Qed.

Lemma dismissed_prompt_deletes_nothing_witness :
  run silentHost
      (askCleanCartridge Path.basename None
         ["app_core"; "app_stale"] ["/ws/cartridges/app_core"])
    = (Fulfilled (None, []),
       [ConfigRequested;
        Prompted (askMessage (extraOnSB Path.basename
                                ["app_core"; "app_stale"]
                                ["/ws/cartridges/app_core"]))
                 askItems]).
Proof.
  apply (dismissed_prompt_deletes_nothing Path.basename
           ["app_core"; "app_stale"] ["/ws/cartridges/app_core"]
           silentHost (mkDWConfig "dw.json" None None)).
  - exists "app_stale". split; [simpl; auto|]. split; [|reflexivity].
    simpl. intros [E|[]]. discriminate.
  - reflexivity.
  - reflexivity.
  - reflexivity.
Defined.

(** ** All or nothing (C9) *)

(** C9: whatever the policy, the configuration and the answer, a call that
    returns hands back either the empty set or the very listing
    [fileNamesOnSandbox] it was given; and the one-shot answer "Remove All"
    returns that full listing too, leaving the policy unset. *)
Theorem delete_set_all_or_nothing (basename : string -> string)
    (mode : option FilesMode) (remote local : list string) (h : Host)
    (mode' : option FilesMode) (toDelete : list string)
    (tr : list Interaction) :
  run h (askCleanCartridge basename mode remote local)
    = (Fulfilled (mode', toDelete), tr) ->
  (toDelete = [] \/ toDelete = remote)
  /\ (forall config,
        mode = None ->
        extraOnSB basename remote local <> [] ->
        getDWConfig h = Fulfilled config ->
        cartridgeResolution config = None ->
        showWarningMessage h
          (askMessage (extraOnSB basename remote local)) askItems
          = Some "Remove All" ->
        toDelete = remote /\ mode' = None).
Proof.
  intros R. split.
  - destruct (ask_all_or_nothing basename remote local mode h mode'
                toDelete tr R) as [N|[F _]]; auto.
  - intros config M X G C A. subst mode.
    destruct (ask_unset basename remote local X) as [k [Hk Hc]].
    rewrite Hk in R. simpl in R. rewrite G, Hc, C in R. simpl in R.
    rewrite A in R. simpl in R. inversion R. auto.
Qed.

Lemma delete_set_all_or_nothing_witness :
  (["app_core"; "app_stale"] = []
   \/ ["app_core"; "app_stale"] = ["app_core"; "app_stale"])
  /\ (forall config,
        @None FilesMode = None ->
        extraOnSB Path.basename ["app_core"; "app_stale"]
                  ["/ws/cartridges/app_core"] <> [] ->
        getDWConfig (answeringHost "Remove All") = Fulfilled config ->
        cartridgeResolution config = None ->
        showWarningMessage (answeringHost "Remove All")
          (askMessage (extraOnSB Path.basename ["app_core"; "app_stale"]
                                 ["/ws/cartridges/app_core"])) askItems
          = Some "Remove All" ->
        ["app_core"; "app_stale"] = ["app_core"; "app_stale"]
        /\ @None FilesMode = None).
Proof.
  apply (delete_set_all_or_nothing Path.basename None
           ["app_core"; "app_stale"] ["/ws/cartridges/app_core"]
           (answeringHost "Remove All") None ["app_core"; "app_stale"]
           [ConfigRequested;
            Prompted (askMessage (extraOnSB Path.basename
                                    ["app_core"; "app_stale"]
                                    ["/ws/cartridges/app_core"]))
                     askItems]).
  reflexivity.
Defined.

(** ** The deduplicator (C5) *)

Section DedupFacts.

Variable basename : string -> string.

Lemma includes_ext (a b : list string) (x : string) :
  (forall y, In y a <-> In y b) -> JS.includes a x = JS.includes b x.
Proof.
  intros H. destruct (JS.includes b x) eqn:E.
  - apply includes_In. apply H. now apply includes_In.
  - apply includes_false. intros I. apply H in I.
    apply includes_In in I. congruence.
Qed.

Lemma firstn_length_app {A} (p l : list A) :
  firstn (List.length p) (p ++ l) = p.
Proof. induction p; simpl; [now destruct l|now f_equal]. Qed.

(** The arrays of the enclosing scope after the loop:
    [uniqueCartridges] has grown by the basenames of the kept
    cartridges. *)
Lemma dedupFilter_unique (l u d : list string) :
  fst (snd (dedupFilter basename l u d))
    = (u ++ map basename (fst (dedupFilter basename l u d)))%list.
Proof.
  revert u d. induction l as [|c l IH]; intros u d; simpl.
  - now rewrite app_nil_r.
  - destruct (JS.includes u (basename c)); simpl.
    + apply IH.
    + specialize (IH (u ++ [basename c])%list d).
      destruct (dedupFilter basename l (u ++ [basename c]) d)
        as [k [u' d']].
      simpl in *. rewrite IH, <- app_assoc. reflexivity.
Qed.

Lemma dedupFilter_NoDup (l u d : list string) :
  NoDup u -> NoDup (fst (snd (dedupFilter basename l u d))).
Proof.
  revert u d. induction l as [|c l IH]; intros u d N; simpl.
  - assumption.
  - destruct (JS.includes u (basename c)) eqn:E; simpl.
    + now apply IH.
    + assert (N' : NoDup (u ++ [basename c])).
      { apply NoDup_app; [assumption| |].
        - repeat constructor. intros [].
        - intros x Hx [<-|[]]. apply includes_false in E. contradiction. }
      specialize (IH (u ++ [basename c])%list d N').
      destruct (dedupFilter basename l (u ++ [basename c]) d)
        as [k [u' d']].
      exact IH.
Qed.

Lemma dedupFilter_covers (l u d : list string) (x : string) :
  In x u \/ In x (map basename l) ->
  In x (fst (snd (dedupFilter basename l u d))).
Proof.
  revert u d. induction l as [|c l IH]; intros u d H; simpl.
  - destruct H as [H|[]]. assumption.
  - destruct (JS.includes u (basename c)) eqn:E; simpl.
    + apply IH. destruct H as [H|[H|H]]; auto.
      left. subst x. now apply includes_In.
    + specialize (IH (u ++ [basename c])%list d).
      destruct (dedupFilter basename l (u ++ [basename c]) d)
        as [k [u' d']].
      simpl in *. apply IH. rewrite in_app_iff. simpl.
      destruct H as [H|[H|H]]; auto.
Qed.

(** The loop against the index-wise description: started after a prefix
    [p] whose basenames are the ones seen so far, it keeps the elements
    of [l] that are first occurrences in [p ++ l] and pushes the others
    to [duplicateCartridges]. *)
Lemma dedupFilter_indexwise (l p u d : list string) :
  (forall x, In x u <-> In x (map basename p)) ->
  let rows := combine (seq (List.length p) (List.length l)) l in
  let first := fun q : nat * string =>
                 firstOccurrenceAt basename (p ++ l) (fst q) (snd q) in
  fst (dedupFilter basename l u d) = map snd (filter first rows)
  /\ snd (snd (dedupFilter basename l u d))
     = (d ++ map snd (filter (fun q => negb (first q)) rows))%list.
Proof.
  revert p u d. induction l as [|c l IH]; intros p u d M; simpl.
  - now rewrite app_nil_r.
  - assert (F : firstOccurrenceAt basename (p ++ c :: l) (List.length p) c
                = negb (JS.includes u (basename c))).
    { unfold firstOccurrenceAt. rewrite firstn_length_app.
      now rewrite (includes_ext u (map basename p) (basename c) M). }
    rewrite !F.
    assert (A : (p ++ c :: l = (p ++ [c]) ++ l)%list)
      by (now rewrite <- app_assoc).
    assert (L : S (List.length p) = List.length (p ++ [c])%list)
      by (rewrite length_app; simpl; lia).
    destruct (JS.includes u (basename c)) eqn:E; simpl.
    + destruct (IH (p ++ [c])%list u (d ++ [c])%list) as [K D].
      { intros x. rewrite map_app, in_app_iff, M. simpl.
        split; [auto|]. intros [H|[<-|[]]]; [assumption|].
        apply M. now apply includes_In. }
      rewrite A, L, K, D. split; [reflexivity|].
      now rewrite <- (app_assoc d [c]).
    + destruct (IH (p ++ [c])%list (u ++ [basename c])%list d) as [K D].
      { intros x. rewrite map_app, !in_app_iff, M. reflexivity. }
      destruct (dedupFilter basename l (u ++ [basename c]) d)
        as [k [u' d']].
      simpl in *. rewrite A, L, K, D. split; reflexivity.
Qed.

End DedupFacts.

(** C5: for every ordered input, [removeDuplicateCartridges] returns, in
    input order, exactly the elements that are the first occurrence of
    their basename; every later occurrence of a basename already seen is
    dropped (and named in the one warning shown when there are any).  So
    the kept basenames are pairwise distinct and every input basename is
    kept once. *)
Theorem removeDuplicateCartridges_keeps_first_occurrences
    (basename : string -> string) (cartridgesToUpload : list string) :
  let kept := fst (removeDuplicateCartridges basename cartridgesToUpload) in
  kept = firstOccurrences basename cartridgesToUpload
  /\ NoDup (map basename kept)
  /\ (forall c, In c cartridgesToUpload ->
                In (basename c) (map basename kept))
  /\ snd (removeDuplicateCartridges basename cartridgesToUpload)
     = match laterOccurrences basename cartridgesToUpload with
       | [] => []
       | d :: ds => [duplicatesMessage (d :: ds)]
       end.
Proof.
  pose proof (dedupFilter_indexwise basename cartridgesToUpload [] [] []
                (fun x => conj (fun H => H) (fun H => H))) as [K D].
  pose proof (dedupFilter_unique basename cartridgesToUpload [] []) as U.
  pose proof (dedupFilter_NoDup basename cartridgesToUpload [] []
                (NoDup_nil _)) as N.
  pose proof (fun x => dedupFilter_covers basename cartridgesToUpload [] []
                         x) as C.
  unfold removeDuplicateCartridges, firstOccurrences, laterOccurrences,
    indexed.
  destruct (dedupFilter basename cartridgesToUpload [] [])
    as [k [u d]].
  simpl in K, D, U, N, C. subst u.
  assert (F : fst (if (List.length d =? 0)%nat then (k, [])
                   else (k, [duplicatesMessage d])) = k)
    by (now destruct (List.length d =? 0)%nat).
  cbv zeta. rewrite F. repeat split.
  - exact K.
  - exact N.
  - intros c Hc. apply C. right. now apply in_map.
  - rewrite <- D. now destruct d.
Qed.

(** ** Allow-list filtering (C10, C6) *)

Lemma filter_twice {A} (f : A -> bool) (l : list A) :
  filter f (filter f l) = filter f l.
Proof.
  induction l as [|x l IH]; simpl; [reflexivity|].
  destruct (f x) eqn:E; simpl; [rewrite E, IH|]; auto.
Qed.

(** C10: filtering by the allow-list a second time changes nothing; this
    holds for the filter of lines 167-170 and for the whole selection of
    lines 166-182, whatever the configured list. *)
Theorem allow_list_filter_idempotent (basename : string -> string)
    (cartridges : list string) :
  (forall allow,
      filterCartridges basename allow
        (filterCartridges basename allow cartridges)
      = filterCartridges basename allow cartridges)
  /\ (forall dwConfCartridge,
        fst (selectCartridges basename dwConfCartridge
               (fst (selectCartridges basename dwConfCartridge cartridges)))
        = fst (selectCartridges basename dwConfCartridge cartridges)).
Proof.
  split.
  - intros allow. apply filter_twice.
  - intros [allow|]; simpl; [|reflexivity].
    destruct (List.length allow =? 0)%nat; simpl; [reflexivity|].
    apply filter_twice.
Qed.

(** What the warning names, when one is shown: the configured names that
    are the basename of no resolved cartridge. *)
Lemma missedCartridges_spec (basename : string -> string)
    (allow cartridges : list string) (n : string) :
  In n (missedCartridges basename allow
          (filterCartridges basename allow cartridges))
  <-> In n allow /\ ~ exists c, In c cartridges /\ basename c = n.
Proof.
  unfold missedCartridges, filterCartridges, JS.some.
  rewrite filter_In, negb_true_iff. split.
  - intros [Hn E]. split; [assumption|]. intros [c [Hc B]].
    assert (X : existsb (fun cartridge => (basename cartridge =? n)%string)
                  (filter (fun cartridge =>
                     existsb (fun dwCar => (basename cartridge =? dwCar)%string)
                             allow) cartridges) = true).
    { apply existsb_exists. exists c. split; [|now apply String.eqb_eq].
      apply filter_In. split; [assumption|].
      apply existsb_exists. exists n. split; [assumption|].
      now apply String.eqb_eq. }
    congruence.
  - intros [Hn N]. split; [assumption|].
    destruct (existsb _ _) eqn:E; [|reflexivity].
    exfalso. apply N. apply existsb_exists in E.
    destruct E as [c [Hc B]]. apply filter_In in Hc.
    exists c. split; [tauto|now apply String.eqb_eq].
Qed.

(** C6 fails on the code.  The warning is shown when the number of
    filtered cartridges differs from the number of configured names, which
    is not the same thing as a configured name being missing.

    First input: the allow-list names [app_core] and [app_custom]; two
    workspace folders each hold a cartridge [app_core] and none holds
    [app_custom].  Two cartridges pass the filter, as many as there are
    configured names, so nothing is said about the missing [app_custom].

    Second input: the allow-list names [app_core] twice and the cartridge
    exists.  No name is missing, and a warning naming no cartridge is
    shown. *)
Theorem missing_cartridge_warning_by_count :
  (let allow := ["app_core"; "app_custom"] in
   let cartridges := ["/ws/a/cartridges/app_core";
                      "/ws/b/cartridges/app_core"] in
   NoDup cartridges
   /\ missedCartridges Path.basename allow
        (filterCartridges Path.basename allow cartridges) = ["app_custom"]
   /\ snd (selectCartridges Path.basename (Some allow) cartridges) = [])
  /\ (let allow := ["app_core"; "app_core"] in
      let cartridges := ["/ws/a/cartridges/app_core"] in
      missedCartridges Path.basename allow
        (filterCartridges Path.basename allow cartridges) = []
      /\ snd (selectCartridges Path.basename (Some allow) cartridges)
         = [missedMessage []]).
Proof.
  split; cbv zeta.
  - split; [|split; reflexivity].
    repeat constructor; simpl; intros H;
      repeat (destruct H as [H|H]; try discriminate); assumption.
  - split; reflexivity.
Qed.

(** ** The session manager (C4, C7, C8) *)

Lemma remove_only (s : nat) : List.remove Nat.eq_dec s [s] = [].
Proof. simpl. destruct (Nat.eq_dec s s); [reflexivity|contradiction]. Qed.

Lemma isOpen_In (s : nat) (w : World) :
  isOpen s w = true <-> In s (openSubscriptions w).
Proof.
  unfold isOpen. rewrite existsb_exists. split.
  - intros [x [Hx E]]. apply Nat.eqb_eq in E. now subst.
  - intros H. exists s. split; [assumption|apply Nat.eqb_refl].
Qed.

Lemma AtMostOneSession_frame (w w' : World) :
  openSubscriptions w' = openSubscriptions w ->
  uploaderSubscription w' = uploaderSubscription w ->
  AtMostOneSession w -> AtMostOneSession w'.
Proof.
  unfold AtMostOneSession, Stopped. intros -> ->. exact (fun H => H).
Qed.

Lemma unsubscribe_keeps_one (s : nat) (w : World) :
  AtMostOneSession w -> AtMostOneSession (unsubscribe s w).
Proof.
  unfold AtMostOneSession, Stopped. simpl.
  intros [E|[x [E U]]]; rewrite E; simpl; [now left|].
  destruct (Nat.eq_dec s x); [now left|]. right. now exists x.
Qed.

Lemma unsubscribe_open_stops (s : nat) (w : World) :
  AtMostOneSession w -> isOpen s w = true -> Stopped (unsubscribe s w).
Proof.
  unfold AtMostOneSession, Stopped. intros [E|[x [E U]]] O;
    apply isOpen_In in O; rewrite E in O; simpl in O; [contradiction|].
  destruct O as [<-|[]]. simpl. rewrite E. apply remove_only.
Qed.

Lemma stopPrevious_stops (w : World) :
  AtMostOneSession w ->
  Stopped (stopPrevious w)
  /\ uploaderSubscription (stopPrevious w) = None
  /\ nextSubscription (stopPrevious w) = nextSubscription w.
Proof.
  unfold AtMostOneSession, Stopped, stopPrevious.
  intros [E|[x [E U]]].
  - destruct (uploaderSubscription w) eqn:U; simpl; rewrite E; auto.
  - rewrite U. simpl. rewrite E, remove_only. auto.
Qed.

Lemma loadUploaderConfig_one (w : World) :
  AtMostOneSession w ->
  openSubscriptions (loadUploaderConfig w) = [nextSubscription w]
  /\ uploaderSubscription (loadUploaderConfig w) = Some (nextSubscription w)
  /\ nextSubscription (loadUploaderConfig w) = S (nextSubscription w).
Proof.
  intros H. destruct (stopPrevious_stops w H) as [E [_ N]].
  unfold loadUploaderConfig, subscribe. simpl.
  unfold Stopped in E. rewrite E, N. auto.
Qed.

Lemma loadUploaderConfig_keeps_one (w : World) :
  AtMostOneSession w -> AtMostOneSession (loadUploaderConfig w).
Proof.
  intros H. destruct (loadUploaderConfig_one w H) as [E [U _]].
  right. now exists (nextSubscription w).
Qed.

Lemma stopSession_stops (w : World) :
  AtMostOneSession w -> Stopped (stopSession w).
Proof.
  unfold AtMostOneSession, Stopped, stopSession.
  intros [E|[x [E U]]].
  - destruct (uploaderSubscription w); simpl; rewrite E; auto.
  - rewrite U. simpl. rewrite E. apply remove_only.
Qed.

Section SessionFacts.

Variable basename : string -> string.

Lemma onCartridges_frame (s : nat) (dwConf : DWConfig)
    (cartridges : list string) (settings : Settings) (w : World) :
  let w' := onCartridges basename s dwConf cartridges settings w in
  openSubscriptions w' = openSubscriptions w
  /\ uploaderSubscription w' = uploaderSubscription w
  /\ nextSubscription w' = nextSubscription w
  /\ outputChannel w' = outputChannel w.
Proof.
  unfold onCartridges, cleanOnStart.
  destruct (resolveCartridges basename (cartridge dwConf) cartridges)
    as [final messages].
  simpl. destruct (firstClean w); simpl; auto.
Qed.

Lemma step_keeps_one (e : Event) (w : World) :
  AtMostOneSession w -> AtMostOneSession (step basename e w).
Proof.
  intros H. destruct e as [c|en|en|s d|s d cs st|s err|s|]; simpl.
  - destruct (commandSubs w); [|assumption].
    destruct c; simpl;
      try (now apply loadUploaderConfig_keeps_one).
    left. now apply stopSession_stops.
  - unfold start. destruct en.
    + apply loadUploaderConfig_keeps_one.
      revert H. now apply AtMostOneSession_frame.
    + revert H. now apply AtMostOneSession_frame.
  - destruct (configSubscription w); [|assumption].
    unfold onDidChangeConfiguration.
    destruct (negb (sameState en (prevState w))); [|assumption].
    assert (H' : AtMostOneSession (set_prevState (Some en) w))
      by (revert H; now apply AtMostOneSession_frame).
    destruct en.
    + now apply loadUploaderConfig_keeps_one.
    + left. now apply stopSession_stops.
  - destruct (isOpen s w); [|assumption].
    revert H. now apply AtMostOneSession_frame.
  - destruct (isOpen s w); [|assumption].
    revert H. apply AtMostOneSession_frame;
      apply (onCartridges_frame s d cs st w).
  - destruct (isOpen s w); [|assumption].
    apply unsubscribe_keeps_one. revert H.
    apply AtMostOneSession_frame; now destruct err.
  - destruct (isOpen s w); [|assumption].
    apply unsubscribe_keeps_one. revert H.
    now apply AtMostOneSession_frame.
  - unfold shutDown. simpl.
    destruct (uploaderSubscription w) eqn:U.
    + assert (K : AtMostOneSession (unsubscribe n w))
        by now apply unsubscribe_keeps_one.
      revert K. now apply AtMostOneSession_frame.
    + revert H. apply AtMostOneSession_frame; simpl; now rewrite ?U.
Qed.

Lemma runEvents_keeps_one (events : list Event) (w : World) :
  AtMostOneSession w -> AtMostOneSession (runEvents basename events w).
Proof.
  revert w. induction events as [|e events IH]; intros w H; simpl.
  - assumption.
  - apply IH. now apply step_keeps_one.
Qed.

Lemma newUploader_one : AtMostOneSession newUploader.
Proof. now left. Qed.

Lemma runEvents_snoc (events : list Event) (e : Event) (w : World) :
  runEvents basename (events ++ [e]) w
  = step basename e (runEvents basename events w).
Proof. unfold runEvents. now rewrite fold_left_app. Qed.

(** Once stopped, the pipeline of a closed session changes nothing. *)
Lemma stopped_ignores_sessions (later : list Event) (w : World) :
  Stopped w -> forallb fromSession later = true ->
  runEvents basename later w = w.
Proof.
  intros S. induction later as [|e later IH]; simpl; [reflexivity|].
  intros F. apply andb_true_iff in F. destruct F as [Fe Fl].
  assert (O : forall s, isOpen s w = false).
  { intros s. unfold isOpen. unfold Stopped in S. now rewrite S. }
  destruct e; simpl in *; try discriminate; rewrite O; now apply IH.
Qed.

End SessionFacts.

Ltac unfold_handlers :=
  unfold onCommand, onDidChangeConfiguration, start, shutDown, stopSession,
    loadUploaderConfig, stopPrevious, subscribe, onDwConf, onError,
    onComplete.

Section SessionSteps.

Variable basename : string -> string.

(** An event that constructs a session leaves that session as the only
    open one. *)
Lemma step_new_session (e : Event) (w : World) :
  AtMostOneSession w ->
  nextSubscription (step basename e w) <> nextSubscription w ->
  openSubscriptions (step basename e w) = [nextSubscription w]
  /\ uploaderSubscription (step basename e w) = Some (nextSubscription w).
Proof.
  intros H.
  assert (P : forall v, AtMostOneSession (set_prevState v w))
    by (intros v; revert H; now apply AtMostOneSession_frame).
  assert (L : forall a b, AtMostOneSession (set_listeners a b w))
    by (intros a b; revert H; now apply AtMostOneSession_frame).
  destruct e as [c|en|en|s d|s d cs st|s err|s|]; simpl.
  - destruct (commandSubs w); [|congruence].
    destruct c; simpl; intros N;
      try (destruct (loadUploaderConfig_one w H) as [A [B _]]; now split).
    exfalso. apply N. unfold stopSession.
    now destruct (uploaderSubscription w).
  - unfold start. destruct en; intros N; [|now elim N].
    assert (K : AtMostOneSession
                  (set_prevState (Some true)
                     (set_listeners (commandSubs w) true w)))
      by (revert H; now apply AtMostOneSession_frame).
    destruct (loadUploaderConfig_one _ K) as [A [B _]]. now split.
  - destruct (configSubscription w); [|congruence].
    unfold onDidChangeConfiguration.
    destruct (negb (sameState en (prevState w))); [|congruence].
    destruct en; intros N.
    + destruct (loadUploaderConfig_one _ (P (Some true))) as [A [B _]].
      now split.
    + exfalso. apply N. unfold stopSession. simpl.
      now destruct (uploaderSubscription w).
  - destruct (isOpen s w); simpl; congruence.
  - destruct (isOpen s w); [|congruence].
    destruct (onCartridges_frame basename s d cs st w) as [_ [_ [N _]]].
    congruence.
  - destruct (isOpen s w); [|congruence]. intros N. exfalso. apply N.
    now destruct err.
  - destruct (isOpen s w); simpl; congruence.
  - intros N. exfalso. apply N. unfold shutDown. simpl.
    now destruct (uploaderSubscription w).
Qed.

Lemma onCartridges_init (s : nat) (dwConf : DWConfig)
    (cartridges : list string) (settings : Settings) (w : World) :
  let w' := onCartridges basename s dwConf cartridges settings w in
  inits w'
  = (inits w ++
     [mkInitCall s
        (mkDWConfig (configFilename dwConf)
           (Some (fst (resolveCartridges basename (cartridge dwConf)
                         cartridges)))
           (cartridgeResolution dwConf))
        (if firstClean w then clean_on_start settings else true)
        (ignore_list settings)])%list
  /\ firstClean w' = false
  /\ cleanOnStartReads w'
     = (if firstClean w then S (cleanOnStartReads w)
        else cleanOnStartReads w)
  /\ warnings w'
     = (warnings w ++ snd (resolveCartridges basename (cartridge dwConf)
                             cartridges))%list.
Proof.
  unfold onCartridges, cleanOnStart.
  destruct (resolveCartridges basename (cartridge dwConf) cartridges)
    as [final messages].
  simpl. destruct (firstClean w) eqn:F; simpl; auto.
Qed.

End SessionSteps.

(** C4: in every state the uploader can reach, at most one session is
    open, and it is the one held in [uploaderSubscription].  When
    [loadUploaderConfig] constructs a session the previous one has been
    unsubscribed and the handle cleared, so the new session is the only
    open one; and whatever event constructs a session - [enable.upload],
    [clean.upload], a flip of the enabled flag or the initial start -
    leaves that session as the only open one. *)
Theorem at_most_one_session (basename : string -> string)
    (events : list Event) :
  let w := runEvents basename events newUploader in
  AtMostOneSession w
  /\ List.length (openSubscriptions w) <= 1
  /\ Stopped (stopPrevious w)
  /\ uploaderSubscription (stopPrevious w) = None
  /\ openSubscriptions (loadUploaderConfig w) = [nextSubscription w]
  /\ (forall e,
        nextSubscription (step basename e w) <> nextSubscription w ->
        openSubscriptions (step basename e w) = [nextSubscription w]
        /\ uploaderSubscription (step basename e w)
           = Some (nextSubscription w)).
Proof.
  intros w.
  assert (H : AtMostOneSession w)
    by (apply runEvents_keeps_one, newUploader_one).
  destruct (stopPrevious_stops w H) as [A [B _]].
  destruct (loadUploaderConfig_one w H) as [C _].
  repeat split; try assumption.
  - destruct H as [E|[s [E _]]]; unfold Stopped in *; rewrite E; simpl; lia.
  - now apply step_new_session.
  - now apply step_new_session.
Qed.

Lemma at_most_one_session_witness :
  openSubscriptions
    (runEvents Path.basename
       [Started true; CommandBus clean_upload; CommandBus clean_upload]
       newUploader) = [2]
  /\ uploaderSubscription
       (runEvents Path.basename
          [Started true; CommandBus clean_upload; CommandBus clean_upload]
          newUploader) = Some 2.
Proof.
  apply (proj2 (proj2 (proj2 (proj2 (proj2
           (at_most_one_session Path.basename
              [Started true; CommandBus clean_upload])))))
           (CommandBus clean_upload)).
  vm_compute. discriminate.
Defined.

(** C7: when an open session fails, the error callback shows the output
    channel and writes the error once - its text, and its stack when it is
    an [Error] - and the uploader is stopped: no session is open, none has
    been constructed, the transport has not been started again.  Nothing a
    session's pipeline can still deliver changes that; only a command, a
    start or a configuration change starts a session again. *)
Theorem start_failure_reported_once_then_stopped
    (basename : string -> string) (events : list Event) (s : nat)
    (err : Thrown) :
  let w := runEvents basename events newUploader in
  isOpen s w = true ->
  let w' := step basename (SessionFailed s err) w in
  outputChannel w'
  = (outputChannel w
     ++ show :: appendLine ("Error: " ++ thrownText err)
        :: match err with
           | ErrorObject _ stack => [appendLine ("Error: " ++ stack)]
           | OtherValue _ => []
           end)%list
  /\ Stopped w'
  /\ nextSubscription w' = nextSubscription w
  /\ inits w' = inits w
  /\ (forall later, forallb fromSession later = true ->
                    runEvents basename later w' = w').
Proof.
  intros w O w'.
  assert (H : AtMostOneSession w)
    by (apply runEvents_keeps_one, newUploader_one).
  assert (S' : Stopped w').
  { unfold w'. simpl. rewrite O. unfold Stopped. simpl.
    assert (E : openSubscriptions (onError err w) = openSubscriptions w)
      by now destruct err.
    rewrite E. apply (unsubscribe_open_stops s w H O). }
  repeat split.
  - unfold w'. simpl. rewrite O.
    destruct err; simpl; rewrite <- !app_assoc; reflexivity.
  - exact S'.
  - unfold w'. simpl. rewrite O. now destruct err.
  - unfold w'. simpl. rewrite O. now destruct err.
  - intros later F. now apply stopped_ignores_sessions.
Qed.

Lemma start_failure_reported_once_then_stopped_witness :
  let err := ErrorObject "Error: connect ECONNREFUSED"
                         "Error: connect ECONNREFUSED at init" in
  let w := runEvents Path.basename [Started true] newUploader in
  let w' := step Path.basename (SessionFailed 0 err) w in
  outputChannel w'
  = (outputChannel w
     ++ [show; appendLine "Error: Error: connect ECONNREFUSED";
         appendLine "Error: Error: connect ECONNREFUSED at init"])%list
  /\ Stopped w'
  /\ nextSubscription w' = nextSubscription w
  /\ inits w' = inits w
  /\ (forall later, forallb fromSession later = true ->
                    runEvents Path.basename later w' = w').
Proof.
  exact (start_failure_reported_once_then_stopped Path.basename
           [Started true] 0
           (ErrorObject "Error: connect ECONNREFUSED"
                        "Error: connect ECONNREFUSED at init")
           eq_refl).
Defined.

(** ** The definitions at work *)

Example basename_of_path :
  Path.basename "/ws/cartridges/app_core" = "app_core"
  /\ Path.basename "/ws/cartridges/app_core/" = "app_core"
  /\ Path.basename "app_core" = "app_core"
  /\ Path.basename "/" = "".
Proof. repeat split. Qed.

Example endsWith_zip :
  JS.endsWith "bundle.zip" ".zip" = true
  /\ JS.endsWith "zip" ".zip" = false
  /\ JS.endsWith "app.zip.old" ".zip" = false.
Proof. repeat split. Qed.

Example dedup_two_folders :
  removeDuplicateCartridges Path.basename
    ["/ws/a/app_core"; "/ws/a/app_custom"; "/ws/b/app_core"; "/ws/b/int_pay"]
  = (["/ws/a/app_core"; "/ws/a/app_custom"; "/ws/b/int_pay"],
     [duplicatesMessage ["/ws/b/app_core"]]).
Proof. reflexivity. Qed.

(** Local cartridges [A, B, C] and the allow-list [C, A]: the filtered
    cartridges come in discovery order and nothing is reported missing. *)
Example allow_list_scenario :
  resolveCartridges Path.basename (Some ["C"; "A"])
                    ["/ws/A"; "/ws/B"; "/ws/C"]
  = (["/ws/A"; "/ws/C"], []).
Proof. reflexivity. Qed.

(** Local [A, B], remote [A, B, Z], no policy, and the answer "Remove All
    Always": the whole listing is returned and the policy is set; the next
    call asks nobody. *)
Example remove_all_always_scenario :
  askAll Path.basename None
    [mkCall (answeringHost "Remove All Always") ["A"; "B"; "Z"]
            ["/ws/A"; "/ws/B"];
     mkCall silentHost ["A"; "B"; "Y"] ["/ws/A"; "/ws/B"]]
  = (Some remove,
     [(Fulfilled ["A"; "B"; "Z"],
       [ConfigRequested;
        Prompted (askMessage ["Z"]) askItems]);
      (Fulfilled ["A"; "B"; "Y"], [])]).
Proof. reflexivity. Qed.

(** A session that is started, restarted and disabled. *)
Example session_lifecycle :
  let w := runEvents Path.basename
             [Started true; CommandBus enable_upload;
              CommandBus disable_upload] newUploader in
  openSubscriptions w = []
  /\ uploaderSubscription w = None
  /\ outputChannel w
     = [appendLine "Starting..."; appendLine "Restarting";
        appendLine "Stopping"].
Proof. repeat split. Qed.

(** * Further properties of the code *)

(** ** [diff] and the resolver *)

(** X1: [diff(a, b)] holds exactly the elements of [b] that are not in
    [a]; it is empty exactly when every element of [b] is in [a], so a
    list has no difference with itself. *)
Theorem diff_characterised (a b : list string) :
  (forall x, In x (diff a b) <-> In x b /\ ~ In x a)
  /\ (diff a b = [] <-> incl b a)
  /\ diff a a = [].
Proof.
  assert (E : forall a b, diff a b = [] <-> incl b a).
  { clear. intros a b. split.
    - intros H x Hx. destruct (in_dec string_dec x a) as [I|N];
        [assumption|].
      assert (X : In x (diff a b)) by (apply In_diff; now split).
      rewrite H in X. contradiction.
    - intros H. destruct (diff a b) as [|x xs] eqn:D; [reflexivity|].
      assert (X : In x (diff a b)) by (rewrite D; now left).
      apply In_diff in X. destruct X as [Hb Ha]. elim Ha. now apply H. }
  split; [intros x; apply In_diff|]. split; [apply E|].
  apply E. apply incl_refl.
Qed.

(** X2: the sticky policy is set by nothing but the configuration's
    [cartridgeResolution] or an "Always" answer: when a call that started
    without a policy ends with one, the configuration named it or the
    user chose the matching "Always" item, and the delete set is the one
    of that policy. *)
Theorem policy_set_only_by_config_or_always (basename : string -> string)
    (remote local : list string) (h : Host) (m : FilesMode)
    (toDelete : list string) (tr : list Interaction) :
  run h (askCleanCartridge basename None remote local)
    = (Fulfilled (Some m, toDelete), tr) ->
  toDelete = match m with remove => remote | leave => [] end
  /\ exists config,
       getDWConfig h = Fulfilled config
       /\ (cartridgeResolution config
             = Some (match m with remove => "remove" | leave => "leave" end)
           \/ showWarningMessage h
                (askMessage (extraOnSB basename remote local)) askItems
              = Some (match m with
                      | remove => "Remove All Always"
                      | leave => "Leave All Always"
                      end)).
Proof.
  unfold askCleanCartridge.
  destruct (extraOnSB basename remote local) as [|e es]; simpl;
    [discriminate|].
  destruct (getDWConfig h) as [config|reason]; [|discriminate].
  assert (Q : forall (v : option string) (t : string),
             strictEq v t = true -> v = Some t).
  { intros [x|] t; simpl; [|discriminate].
    intros H. apply String.eqb_eq in H. now subst. }
  destruct (strictEq (cartridgeResolution config) "remove") eqn:R; simpl.
  { intros H. inversion H. subst. split; [reflexivity|].
    exists config. split; [reflexivity|]. left. now apply Q. }
  destruct (strictEq (cartridgeResolution config) "leave") eqn:L; simpl.
  { intros H. inversion H. subst. split; [reflexivity|].
    exists config. split; [reflexivity|]. left. now apply Q. }
  destruct (truthy _); simpl; [|discriminate].
  destruct (strictEq _ "Remove All Always") eqn:A; simpl.
  { intros H. inversion H. subst. split; [reflexivity|].
    exists config. split; [reflexivity|]. right. now apply Q. }
  destruct (strictEq _ "Leave All Always") eqn:B; simpl.
  { intros H. inversion H. subst. split; [reflexivity|].
    exists config. split; [reflexivity|]. right. now apply Q. }
  destruct (strictEq _ "Remove All"); simpl; discriminate.
Qed.

Lemma policy_set_only_by_config_or_always_witness :
  ["app_core"; "app_stale"] = ["app_core"; "app_stale"]
  /\ exists config,
       getDWConfig (configuredHost "remove") = Fulfilled config
       /\ (cartridgeResolution config = Some "remove"
           \/ showWarningMessage (configuredHost "remove")
                (askMessage (extraOnSB Path.basename
                               ["app_core"; "app_stale"]
                               ["/ws/cartridges/app_core"])) askItems
              = Some "Remove All Always").
Proof.
  exact (policy_set_only_by_config_or_always Path.basename
           ["app_core"; "app_stale"] ["/ws/cartridges/app_core"]
           (configuredHost "remove") remove ["app_core"; "app_stale"]
           [ConfigRequested] eq_refl).
Defined.

(** X3: a [cartridgeResolution] of [remove] or [leave] in the
    configuration settles a call without a prompt: whatever the user
    would answer, nobody is asked, the policy is set, and the delete set
    is the whole listing or nothing. *)
Theorem config_preference_skips_prompt (basename : string -> string)
    (remote local : list string) (h : Host) (config : DWConfig) :
  extraOnSB basename remote local <> [] ->
  getDWConfig h = Fulfilled config ->
  (cartridgeResolution config = Some "remove" ->
   run h (askCleanCartridge basename None remote local)
     = (Fulfilled (Some remove, remote), [ConfigRequested]))
  /\ (cartridgeResolution config = Some "leave" ->
      run h (askCleanCartridge basename None remote local)
        = (Fulfilled (Some leave, []), [ConfigRequested])).
Proof.
  intros X G.
  destruct (ask_unset basename remote local X) as [k [Hk Hc]].
  rewrite Hk. simpl. rewrite G, Hc.
  split; intros C; rewrite C; reflexivity.
Qed.

Lemma config_preference_skips_prompt_witness :
  run (configuredHost "leave")
      (askCleanCartridge Path.basename None ["app_core"; "app_stale"]
                         ["/ws/cartridges/app_core"])
    = (Fulfilled (Some leave, []), [ConfigRequested]).
Proof.
  apply (proj2 (config_preference_skips_prompt Path.basename
                  ["app_core"; "app_stale"] ["/ws/cartridges/app_core"]
                  (configuredHost "leave")
                  (mkDWConfig "dw.json" None (Some "leave"))
                  ltac:(vm_compute; discriminate) eq_refl)).
  reflexivity.
Defined.

(** ** More on the deduplicator *)

Section DedupMore.

Variable basename : string -> string.

Lemma removeDuplicateCartridges_fst (l : list string) :
  fst (removeDuplicateCartridges basename l)
  = fst (dedupFilter basename l [] []).
Proof.
  unfold removeDuplicateCartridges.
  destruct (dedupFilter basename l [] []) as [k [u d]]. simpl.
  now destruct (List.length d =? 0)%nat.
Qed.

Lemma removeDuplicateCartridges_snd (l : list string) :
  snd (removeDuplicateCartridges basename l) = []
  <-> snd (snd (dedupFilter basename l [] [])) = [].
Proof.
  unfold removeDuplicateCartridges.
  destruct (dedupFilter basename l [] []) as [k [u d]]. simpl.
  destruct d; simpl; split; intros H; try reflexivity; discriminate.
Qed.

Lemma kept_NoDup (l : list string) :
  NoDup (map basename (fst (dedupFilter basename l [] []))).
Proof.
  pose proof (dedupFilter_NoDup basename l [] [] (NoDup_nil _)) as N.
  now rewrite dedupFilter_unique in N.
Qed.

(** On cartridges with fresh, pairwise distinct basenames the loop keeps
    everything. *)
Lemma dedupFilter_distinct (l u d : list string) :
  NoDup (map basename l) ->
  (forall c, In c l -> ~ In (basename c) u) ->
  dedupFilter basename l u d = (l, ((u ++ map basename l)%list, d)).
Proof.
  revert u. induction l as [|c l IH]; intros u N F; simpl.
  - now rewrite app_nil_r.
  - inversion N as [|x xs Hc Hl]; subst.
    assert (E : JS.includes u (basename c) = false)
      by (apply includes_false, F; now left).
    rewrite E. simpl. rewrite IH; [now rewrite <- app_assoc|assumption|].
    intros c' Hc' I. apply in_app_iff in I. destruct I as [I|[I|[]]].
    + apply (F c'); [now right|assumption].
    + apply Hc. rewrite I. now apply in_map.
Qed.

Lemma dedupFilter_partition (l u d : list string) :
  Permutation (fst (dedupFilter basename l u d)
                 ++ snd (snd (dedupFilter basename l u d)))
              (d ++ l).
Proof.
  revert u d. induction l as [|c l IH]; intros u d; simpl.
  - now rewrite app_nil_r.
  - destruct (JS.includes u (basename c)); simpl.
    + rewrite IH, <- app_assoc. reflexivity.
    + specialize (IH (u ++ [basename c])%list d).
      destruct (dedupFilter basename l (u ++ [basename c]) d)
        as [k [u' d']].
      simpl in *. now apply Permutation_cons_app.
Qed.

Lemma dedupFilter_dropped_seen (l u d : list string) (c : string) :
  In c (snd (snd (dedupFilter basename l u d))) ->
  In c d \/ In (basename c) (fst (snd (dedupFilter basename l u d))).
Proof.
  revert u d. induction l as [|x l IH]; intros u d; simpl.
  - auto.
  - destruct (JS.includes u (basename x)) eqn:E; simpl.
    + intros H. apply IH in H. destruct H as [H|H]; [|now right].
      apply in_app_iff in H. destruct H as [H|[<-|[]]]; [now left|].
      right. apply dedupFilter_covers. left. now apply includes_In.
    + specialize (IH (u ++ [basename x])%list d).
      destruct (dedupFilter basename l (u ++ [basename x]) d)
        as [k [u' d']].
      exact IH.
Qed.

End DedupMore.

(** X4: deduplication is idempotent: run on its own result,
    [removeDuplicateCartridges] keeps every cartridge and shows no
    warning. *)
Theorem removeDuplicateCartridges_idempotent (basename : string -> string)
    (cartridgesToUpload : list string) :
  removeDuplicateCartridges basename
    (fst (removeDuplicateCartridges basename cartridgesToUpload))
  = (fst (removeDuplicateCartridges basename cartridgesToUpload), []).
Proof.
  rewrite removeDuplicateCartridges_fst.
  unfold removeDuplicateCartridges at 1.
  rewrite dedupFilter_distinct; [reflexivity|apply kept_NoDup|].
  intros c _ [].
Qed.

(** X5: the duplicates warning is shown exactly when two cartridges of
    the input share a basename; without such a collision the input is
    returned as it is. *)
Theorem duplicates_warning_iff_collision (basename : string -> string)
    (cartridgesToUpload : list string) :
  (snd (removeDuplicateCartridges basename cartridgesToUpload) = []
   <-> NoDup (map basename cartridgesToUpload))
  /\ (NoDup (map basename cartridgesToUpload) ->
      removeDuplicateCartridges basename cartridgesToUpload
      = (cartridgesToUpload, [])).
Proof.
  assert (R : NoDup (map basename cartridgesToUpload) ->
              removeDuplicateCartridges basename cartridgesToUpload
              = (cartridgesToUpload, [])).
  { intros N. unfold removeDuplicateCartridges.
    rewrite dedupFilter_distinct; [reflexivity|assumption|].
    intros c _ []. }
  split; [|exact R]. split.
  - intros W. apply removeDuplicateCartridges_snd in W.
    pose proof (dedupFilter_partition basename cartridgesToUpload [] [])
      as P.
    rewrite W, app_nil_r in P. simpl in P.
    apply (Permutation_NoDup (Permutation_map basename P)).
    apply kept_NoDup.
  - intros N. now rewrite (R N).
Qed.

Lemma duplicates_warning_iff_collision_witness :
  removeDuplicateCartridges Path.basename
    ["/ws/a/app_core"; "/ws/b/int_pay"]
  = (["/ws/a/app_core"; "/ws/b/int_pay"], []).
Proof.
  apply (proj2 (duplicates_warning_iff_collision Path.basename
                  ["/ws/a/app_core"; "/ws/b/int_pay"])).
  repeat constructor; simpl; intros H;
    repeat (destruct H as [H|H]; try discriminate); assumption.
Defined.

(** X6: deduplication loses nothing: the kept cartridges and the ones
    named in the warning together are the input, each as often as it
    occurs there, and every dropped cartridge has the basename of a kept
    one. *)
Theorem removeDuplicateCartridges_partitions (basename : string -> string)
    (cartridgesToUpload : list string) :
  let kept := fst (removeDuplicateCartridges basename cartridgesToUpload) in
  let dropped := snd (snd (dedupFilter basename cartridgesToUpload [] [])) in
  Permutation (kept ++ dropped) cartridgesToUpload
  /\ List.length kept + List.length dropped
     = List.length cartridgesToUpload
  /\ (forall c, In c dropped ->
        exists k, In k kept /\ basename k = basename c)
  /\ snd (removeDuplicateCartridges basename cartridgesToUpload)
     = match dropped with
       | [] => []
       | _ :: _ => [duplicatesMessage dropped]
       end.
Proof.
  cbv zeta. rewrite removeDuplicateCartridges_fst.
  pose proof (dedupFilter_partition basename cartridgesToUpload [] [])
    as P. simpl in P.
  repeat split.
  - exact P.
  - rewrite <- length_app. now apply Permutation_length.
  - intros c Hc.
    apply dedupFilter_dropped_seen in Hc. destruct Hc as [[]|Hc].
    rewrite dedupFilter_unique in Hc. simpl in Hc.
    apply in_map_iff in Hc. destruct Hc as [k [E Hk]]. now exists k.
  - unfold removeDuplicateCartridges.
    destruct (dedupFilter basename cartridgesToUpload [] [])
      as [k [u d]]. simpl. now destruct d.
Qed.

(** ** More on the allow-list *)

Section AllowListMore.

Variable basename : string -> string.

Lemma In_filterCartridges (allow cartridges : list string) (c : string) :
  In c (filterCartridges basename allow cartridges)
  <-> In c cartridges /\ In (basename c) allow.
Proof.
  unfold filterCartridges, JS.some. rewrite filter_In, existsb_exists.
  split; intros [H X]; (split; [assumption|]).
  - destruct X as [n [Hn E]]. apply String.eqb_eq in E. now rewrite E.
  - exists (basename c). split; [assumption|apply String.eqb_refl].
Qed.

(** Filtering cannot make two basenames collide. *)
Lemma filterCartridges_distinct (allow cartridges : list string) :
  NoDup (map basename cartridges) ->
  NoDup (map basename (filterCartridges basename allow cartridges)).
Proof.
  unfold filterCartridges.
  induction cartridges as [|c cs IH]; intros N; [constructor|].
  inversion N as [|y ys Hc Hcs]; subst. cbn [filter].
  destruct (JS.some allow _); [|now apply IH].
  cbn [map]. constructor; [|now apply IH].
  intros I. apply Hc. apply in_map_iff in I. destruct I as [z [E Hz]].
  apply filter_In in Hz. rewrite <- E. apply in_map. tauto.
Qed.

Lemma missedWarning_shown (allow filtered : list string) :
  missedWarning basename allow filtered <> []
  <-> List.length filtered <> List.length allow.
Proof.
  unfold missedWarning.
  destruct (List.length filtered =? List.length allow)%nat eqn:E; simpl.
  - apply Nat.eqb_eq in E. split; intros H; contradiction.
  - apply Nat.eqb_neq in E. split; intros _; [assumption|discriminate].
Qed.

End AllowListMore.

(** X7: the allow-list filter keeps exactly the resolved cartridges whose
    basename is a configured name, in discovery order: the filter of a
    concatenation is the concatenation of the filters, and two
    allow-lists holding the same names - in whatever order, however often
    - select the same list. *)
Theorem allow_list_selects_by_name (basename : string -> string)
    (allow cartridges : list string) :
  (forall c, In c (filterCartridges basename allow cartridges)
             <-> In c cartridges /\ In (basename c) allow)
  /\ (forall more,
        filterCartridges basename allow (cartridges ++ more)
        = (filterCartridges basename allow cartridges
             ++ filterCartridges basename allow more)%list)
  /\ (forall allow',
        (forall n, In n allow <-> In n allow') ->
        filterCartridges basename allow' cartridges
        = filterCartridges basename allow cartridges).
Proof.
  split; [intros c; apply In_filterCartridges|]. split.
  - intros more. apply filter_app.
  - intros allow' S. unfold filterCartridges. apply filter_ext.
    intros c. unfold JS.some.
    destruct (existsb (fun dwCar => (basename c =? dwCar)%string) allow)
      eqn:E.
    + apply existsb_exists in E. destruct E as [n [Hn E]].
      apply existsb_exists. exists n. split; [now apply S|assumption].
    + destruct (existsb _ allow') eqn:E'; [|reflexivity].
      apply existsb_exists in E'. destruct E' as [n [Hn E']].
      assert (X : existsb (fun dwCar => (basename c =? dwCar)%string) allow
                  = true).
      { apply existsb_exists. exists n. split; [now apply S|assumption]. }
      congruence.
Qed.

Lemma allow_list_selects_by_name_witness :
  filterCartridges Path.basename ["A"; "C"; "C"] ["/ws/A"; "/ws/B"; "/ws/C"]
  = filterCartridges Path.basename ["C"; "A"] ["/ws/A"; "/ws/B"; "/ws/C"].
Proof.
  apply (proj2 (proj2 (allow_list_selects_by_name Path.basename
                         ["C"; "A"] ["/ws/A"; "/ws/B"; "/ws/C"]))
               ["A"; "C"; "C"]).
  intros n. simpl. tauto.
Defined.

(** X8: when no two resolved cartridges share a basename and no name is
    configured twice, the count the code compares is exact: the
    missing-cartridge warning is shown if and only if some configured
    name is the basename of no resolved cartridge, and it names those
    names and no others. *)
Theorem missing_warning_exact_without_repeats (basename : string -> string)
    (allow cartridges : list string) :
  allow <> [] ->
  NoDup allow ->
  NoDup (map basename cartridges) ->
  let missed := missedCartridges basename allow
                  (filterCartridges basename allow cartridges) in
  (forall n, In n missed
             <-> In n allow /\ ~ exists c, In c cartridges /\ basename c = n)
  /\ (missed <> [] ->
      snd (selectCartridges basename (Some allow) cartridges)
      = [missedMessage missed])
  /\ (missed = [] ->
      snd (selectCartridges basename (Some allow) cartridges) = []).
Proof.
  intros NE NA NC missed.
  set (filtered := filterCartridges basename allow cartridges) in *.
  assert (ND : NoDup (map basename filtered))
    by (apply filterCartridges_distinct; assumption).
  assert (IN : incl (map basename filtered) allow).
  { intros n Hn. apply in_map_iff in Hn. destruct Hn as [c [<- Hc]].
    now apply In_filterCartridges in Hc. }
  assert (M : forall n, In n missed
              <-> In n allow
                  /\ ~ exists c, In c cartridges /\ basename c = n)
    by (intros n; apply missedCartridges_spec).
  assert (S0 : snd (selectCartridges basename (Some allow) cartridges)
               = missedWarning basename allow filtered).
  { simpl. destruct allow; [contradiction|reflexivity]. }
  split; [exact M|]. rewrite S0. unfold missedWarning. fold missed.
  split.
  - intros X.
    destruct (List.length filtered =? List.length allow)%nat eqn:E;
      [|reflexivity].
    exfalso. apply Nat.eqb_eq in E. rewrite <- (length_map basename) in E.
    destruct missed as [|n ns] eqn:Q; [contradiction|].
    assert (Hn : In n (n :: ns)) by now left.
    apply M in Hn. destruct Hn as [Ha Hm].
    assert (I : incl allow (map basename filtered)).
    { apply NoDup_length_incl; [assumption|lia|assumption]. }
    apply I in Ha. apply in_map_iff in Ha. destruct Ha as [c [E' Hc]].
    apply Hm. exists c. apply In_filterCartridges in Hc. tauto.
  - intros X.
    destruct (List.length filtered =? List.length allow)%nat eqn:E;
      [reflexivity|].
    exfalso. apply Nat.eqb_neq in E. apply E.
    rewrite <- (length_map basename). apply Nat.le_antisymm.
    + now apply NoDup_incl_length.
    + apply NoDup_incl_length; [assumption|].
      intros n Hn.
      destruct (in_dec string_dec n (map basename filtered)) as [I|I];
        [assumption|].
      exfalso.
      assert (Hm : In n missed).
      { apply M. split; [assumption|]. intros [c [Hc Ec]].
        apply I. rewrite <- Ec. apply in_map.
        apply In_filterCartridges. rewrite Ec. now split. }
      rewrite X in Hm. contradiction.
Qed.

Lemma missing_warning_exact_without_repeats_witness :
  let missed := missedCartridges Path.basename ["app_core"; "app_custom"]
                  (filterCartridges Path.basename
                     ["app_core"; "app_custom"]
                     ["/ws/cartridges/app_core"]) in
  (forall n, In n missed
             <-> In n ["app_core"; "app_custom"]
                 /\ ~ exists c, In c ["/ws/cartridges/app_core"]
                                /\ Path.basename c = n)
  /\ (missed <> [] ->
      snd (selectCartridges Path.basename
             (Some ["app_core"; "app_custom"]) ["/ws/cartridges/app_core"])
      = [missedMessage missed])
  /\ (missed = [] ->
      snd (selectCartridges Path.basename
             (Some ["app_core"; "app_custom"]) ["/ws/cartridges/app_core"])
      = []).
Proof.
  apply (missing_warning_exact_without_repeats Path.basename
           ["app_core"; "app_custom"] ["/ws/cartridges/app_core"]).
  - discriminate.
  - repeat constructor; simpl; intros H;
      repeat (destruct H as [H|H]; try discriminate); assumption.
  - repeat constructor; simpl; intros H;
      repeat (destruct H as [H|H]; try discriminate); assumption.
Defined.

(** ** What the transport is handed *)

Section HandOff.

Variable basename : string -> string.

Lemma resolveCartridges_fst (dwConfCartridge : option (list string))
    (cartridges : list string) :
  fst (resolveCartridges basename dwConfCartridge cartridges)
  = fst (dedupFilter basename
           (fst (selectCartridges basename dwConfCartridge cartridges))
           [] []).
Proof.
  unfold resolveCartridges.
  destruct (selectCartridges basename dwConfCartridge cartridges)
    as [selected w1].
  cbn [fst]. rewrite <- removeDuplicateCartridges_fst.
  now destruct (removeDuplicateCartridges basename selected).
Qed.

Lemma kept_incl (l : list string) :
  incl (fst (dedupFilter basename l [] [])) l.
Proof.
  intros c Hc.
  apply (Permutation_in c (dedupFilter_partition basename l [] [])).
  apply in_app_iff. now left.
Qed.

Lemma kept_covers (l : list string) (c : string) :
  In c l -> In (basename c) (map basename (fst (dedupFilter basename l [] []))).
Proof.
  intros Hc.
  pose proof (dedupFilter_covers basename l [] [] (basename c)
                (or_intror (in_map basename l c Hc))) as H.
  now rewrite dedupFilter_unique in H.
Qed.

End HandOff.

(** X9: the cartridge list handed to [uploadServer.init] holds pairwise
    distinct basenames, holds only resolved cartridges, holds only
    configured names when the configuration has a non-empty allow-list,
    and leaves out no basename that was selected: every resolved
    cartridge (with a configured name, when there is an allow-list) has
    its basename in the list. *)
Theorem transport_receives_distinct_cartridges (basename : string -> string)
    (w : World) (s : nat) (dwConf : DWConfig) (cartridges : list string)
    (settings : Settings) :
  isOpen s w = true ->
  let w' := step basename
              (CartridgesResolved s dwConf cartridges settings) w in
  exists c final,
    inits w' = (inits w ++ [c])%list
    /\ cartridge (init_config c) = Some final
    /\ init_ignoreList c = ignore_list settings
    /\ NoDup (map basename final)
    /\ incl final cartridges
    /\ (forall allow, cartridge dwConf = Some allow -> allow <> [] ->
          forall k, In k final -> In (basename k) allow)
    /\ (forall k, In k cartridges ->
          (forall allow, cartridge dwConf = Some allow -> allow <> [] ->
                         In (basename k) allow) ->
          In (basename k) (map basename final)).
Proof.
  intros O. simpl. rewrite O.
  destruct (onCartridges_init basename s dwConf cartridges settings w)
    as [I _].
  eexists. eexists. split; [exact I|]. simpl.
  split; [reflexivity|]. split; [reflexivity|].
  rewrite resolveCartridges_fst.
  set (selected := fst (selectCartridges basename (cartridge dwConf)
                          cartridges)).
  assert (SI : forall k, In k selected ->
               In k cartridges
               /\ forall allow, cartridge dwConf = Some allow ->
                    allow <> [] -> In (basename k) allow).
  { unfold selected. intros k. destruct (cartridge dwConf) as [allow|];
      simpl; [|intros H; split; [assumption|discriminate]].
    destruct allow as [|a allow]; simpl.
    - intros H. split; [assumption|]. intros ? E N. inversion E. subst.
      contradiction.
    - intros H. apply (In_filterCartridges basename (a :: allow)) in H.
      split; [tauto|]. intros ? E _. inversion E. subst. tauto. }
  assert (IS : forall k, In k cartridges ->
               (forall allow, cartridge dwConf = Some allow ->
                  allow <> [] -> In (basename k) allow) ->
               In k selected).
  { unfold selected. intros k Hk A.
    destruct (cartridge dwConf) as [allow|]; simpl; [|assumption].
    destruct allow as [|a allow]; simpl; [assumption|].
    apply (In_filterCartridges basename (a :: allow)).
    split; [assumption|]. apply A; [reflexivity|discriminate]. }
  repeat split.
  - apply kept_NoDup.
  - intros k Hk. apply kept_incl in Hk. now apply SI.
  - intros allow E N k Hk. apply kept_incl in Hk.
    now apply (proj2 (SI k Hk) allow).
  - intros k Hk A. apply kept_covers. now apply IS.
Qed.

Lemma transport_receives_distinct_cartridges_witness :
  let w := runEvents Path.basename [Started true] newUploader in
  let cartridges := ["/ws/a/app_core"; "/ws/b/app_core"; "/ws/b/int_pay"] in
  let dwConf := mkDWConfig "dw.json" (Some ["app_core"]) None in
  let settings := mkSettings false ["node_modules"] in
  let w' := step Path.basename
              (CartridgesResolved 0 dwConf cartridges settings) w in
  exists c final,
    inits w' = (inits w ++ [c])%list
    /\ cartridge (init_config c) = Some final
    /\ init_ignoreList c = ignore_list settings
    /\ NoDup (map Path.basename final)
    /\ incl final cartridges
    /\ (forall allow, cartridge dwConf = Some allow -> allow <> [] ->
          forall k, In k final -> In (Path.basename k) allow)
    /\ (forall k, In k cartridges ->
          (forall allow, cartridge dwConf = Some allow -> allow <> [] ->
                         In (Path.basename k) allow) ->
          In (Path.basename k) (map Path.basename final)).
Proof.
  exact (transport_receives_distinct_cartridges Path.basename
           (runEvents Path.basename [Started true] newUploader) 0
           (mkDWConfig "dw.json" (Some ["app_core"]) None)
           ["/ws/a/app_core"; "/ws/b/app_core"; "/ws/b/int_pay"]
           (mkSettings false ["node_modules"]) eq_refl).
Defined.

(** ** More on the session manager *)

Section SessionMore.

Variable basename : string -> string.

Lemma loadUploaderConfig_listeners (w : World) :
  prevState (loadUploaderConfig w) = prevState w
  /\ commandSubs (loadUploaderConfig w) = commandSubs w
  /\ configSubscription (loadUploaderConfig w) = configSubscription w
  /\ inits (loadUploaderConfig w) = inits w.
Proof.
  unfold_handlers. destruct (uploaderSubscription w); simpl; auto.
Qed.

Lemma stopSession_listeners (w : World) :
  prevState (stopSession w) = prevState w
  /\ commandSubs (stopSession w) = commandSubs w
  /\ configSubscription (stopSession w) = configSubscription w
  /\ inits (stopSession w) = inits w
  /\ nextSubscription (stopSession w) = nextSubscription w.
Proof.
  unfold_handlers. destruct (uploaderSubscription w); simpl; auto.
Qed.

Lemma step_fresh (e : Event) (w : World) :
  AtMostOneSession w -> FreshHandles w ->
  FreshHandles (step basename e w).
Proof.
  intros H F.
  destruct (Nat.eq_dec (nextSubscription (step basename e w))
                       (nextSubscription w)) as [E|N].
  - (* no session constructed: the handles in use are among the old *)
    assert (G : (forall s, In s (openSubscriptions (step basename e w)) ->
                           In s (openSubscriptions w))
                /\ (forall s, uploaderSubscription (step basename e w)
                              = Some s ->
                              uploaderSubscription w = Some s)).
    { revert E.
      destruct e as [c|en|en|s d|s d cs st|s err|s|]; simpl.
      - destruct (commandSubs w); [|auto].
        destruct c; unfold onCommand; intros E;
          try (destruct (loadUploaderConfig_one w H) as [_ [_ X]];
               rewrite X in E; lia).
        unfold stopSession.
        destruct (uploaderSubscription w) eqn:U; simpl;
          [|rewrite ?U; auto].
        split; [intros s; apply in_remove|discriminate].
      - unfold start. destruct en; cbv zeta; [|simpl; auto]. intros E.
        assert (K : AtMostOneSession
                      (set_prevState (Some true)
                         (set_listeners (commandSubs w) true w)))
          by (revert H; now apply AtMostOneSession_frame).
        destruct (loadUploaderConfig_one _ K) as [_ [_ X]].
        rewrite X in E. simpl in E. lia.
      - destruct (configSubscription w); [|auto].
        unfold onDidChangeConfiguration.
        destruct (negb (sameState en (prevState w))); [|auto].
        destruct en; intros E.
        + assert (K : AtMostOneSession (set_prevState (Some true) w))
            by (revert H; now apply AtMostOneSession_frame).
          destruct (loadUploaderConfig_one _ K) as [_ [_ X]].
          rewrite X in E. simpl in E. lia.
        + unfold stopSession. simpl.
          destruct (uploaderSubscription w) eqn:U; simpl;
            [|rewrite ?U; auto].
          split; [intros s; apply in_remove|discriminate].
      - destruct (isOpen s w); simpl; auto.
      - destruct (isOpen s w); [|auto].
        destruct (onCartridges_frame basename s d cs st w)
          as [A [B _]]. intros _. cbv zeta in A, B. rewrite A, B. auto.
      - destruct (isOpen s w); [|auto]. intros _. simpl.
        assert (A : openSubscriptions (onError err w) = openSubscriptions w)
          by now destruct err.
        assert (B : uploaderSubscription (onError err w)
                    = uploaderSubscription w) by now destruct err.
        rewrite A, B. split; [intros x; apply in_remove|auto].
      - destruct (isOpen s w); [|auto]. intros _. simpl.
        split; [intros x; apply in_remove|auto].
      - intros _. unfold shutDown. simpl.
        destruct (uploaderSubscription w) eqn:U; simpl; rewrite ?U;
          [|auto].
        split; [intros x; apply in_remove|auto]. }
    destruct F as [F1 F2]. destruct G as [G1 G2]. rewrite <- E in F1, F2.
    split; intros s Hs; [apply F1, G1|apply F2, G2]; assumption.
  - destruct (step_new_session basename e w H N) as [A B].
    assert (L : nextSubscription w < nextSubscription (step basename e w)).
    { revert N.
      destruct e as [c|en|en|s d|s d cs st|s err|s|]; simpl.
      - destruct (commandSubs w); [|congruence].
        destruct c; unfold onCommand; intros N;
          try (destruct (loadUploaderConfig_one w H) as [_ [_ X]];
               rewrite X; lia).
        destruct (stopSession_listeners w) as [_ [_ [_ [_ X]]]].
        congruence.
      - unfold start. destruct en; cbv zeta; [|simpl; congruence].
        intros _.
        assert (K : AtMostOneSession
                      (set_prevState (Some true)
                         (set_listeners (commandSubs w) true w)))
          by (revert H; now apply AtMostOneSession_frame).
        destruct (loadUploaderConfig_one _ K) as [_ [_ X]].
        rewrite X. simpl. lia.
      - destruct (configSubscription w); [|congruence].
        unfold onDidChangeConfiguration.
        destruct (negb (sameState en (prevState w))); [|congruence].
        destruct en; intros N.
        + assert (K : AtMostOneSession (set_prevState (Some true) w))
            by (revert H; now apply AtMostOneSession_frame).
          destruct (loadUploaderConfig_one _ K) as [_ [_ X]].
          rewrite X. simpl. lia.
        + destruct (stopSession_listeners (set_prevState (Some false) w))
            as [_ [_ [_ [_ X]]]].
          simpl in X. congruence.
      - destruct (isOpen s w); simpl; congruence.
      - destruct (isOpen s w); [|congruence].
        destruct (onCartridges_frame basename s d cs st w)
          as [_ [_ [X _]]]. congruence.
      - destruct (isOpen s w); [|congruence]. intros N. exfalso. apply N.
        now destruct err.
      - destruct (isOpen s w); simpl; congruence.
      - intros N. exfalso. apply N. unfold shutDown. simpl.
        now destruct (uploaderSubscription w). }
    split; intros s Hs.
    + rewrite A in Hs. destruct Hs as [<-|[]]. exact L.
    + rewrite B in Hs. inversion Hs. subst. exact L.
Qed.

Lemma runEvents_fresh (events : list Event) (w : World) :
  AtMostOneSession w -> FreshHandles w ->
  FreshHandles (runEvents basename events w).
Proof.
  revert w. induction events as [|e events IH]; intros w H F; simpl.
  - assumption.
  - apply IH; [now apply step_keeps_one|now apply step_fresh].
Qed.

Lemma newUploader_fresh : FreshHandles newUploader.
Proof. split; [intros s []|discriminate]. Qed.

Lemma closed_session_ignored (s : nat) (w : World) :
  isOpen s w = false ->
  (forall d, step basename (DwConfLoaded s d) w = w)
  /\ (forall d cs st, step basename (CartridgesResolved s d cs st) w = w)
  /\ (forall err, step basename (SessionFailed s err) w = w)
  /\ step basename (SessionCompleted s) w = w.
Proof.
  intros O. simpl. rewrite O. auto.
Qed.

Lemma shutDown_shuts (w : World) :
  AtMostOneSession w ->
  ShutDown (shutDown w)
  /\ nextSubscription (shutDown w) = nextSubscription w
  /\ inits (shutDown w) = inits w.
Proof.
  intros H. unfold ShutDown, Stopped, shutDown. simpl.
  destruct (uploaderSubscription w) as [s|] eqn:U; simpl.
  - repeat split. destruct H as [E|[x [E U']]]; unfold Stopped in *;
      rewrite E; simpl; [reflexivity|].
    rewrite U in U'. inversion U'. subst. apply remove_only.
  - repeat split. destruct H as [E|[x [E U']]]; [assumption|congruence].
Qed.

Lemma step_stays_shut (e : Event) (w : World) :
  ShutDown w -> isStart e = false ->
  ShutDown (step basename e w)
  /\ nextSubscription (step basename e w) = nextSubscription w
  /\ inits (step basename e w) = inits w.
Proof.
  intros [C [L S0]] N.
  assert (O : forall s, isOpen s w = false).
  { intros s. unfold isOpen. unfold Stopped in S0. now rewrite S0. }
  destruct e as [c|en|en|s d|s d cs st|s err|s|]; simpl;
    try discriminate; rewrite ?C, ?L, ?O; try (now repeat split).
  apply shutDown_shuts. now left.
Qed.

End SessionMore.

(** X10: shutting the uploader down is final.  After the teardown of
    [start] no session is open and the uploader listens neither to the
    command bus nor to the settings; whatever arrives next - commands,
    configuration changes, results of old sessions, another teardown -
    constructs no session and does not start the transport, for as long
    as [start] is not subscribed again. *)
Theorem shutdown_is_final (basename : string -> string)
    (events later : list Event) :
  forallb (fun e => negb (isStart e)) later = true ->
  let w := runEvents basename events newUploader in
  let w' := runEvents basename later (step basename Disposed w) in
  ShutDown w'
  /\ nextSubscription w' = nextSubscription w
  /\ inits w' = inits w.
Proof.
  intros L w.
  assert (H : AtMostOneSession w)
    by (apply runEvents_keeps_one, newUploader_one).
  destruct (shutDown_shuts w H) as [D [N I]].
  change (step basename Disposed w) with (shutDown w).
  rewrite <- N, <- I. revert D L. generalize (shutDown w). clear.
  induction later as [|e later IH]; intros v D L; simpl.
  - auto.
  - simpl in L. apply andb_true_iff in L. destruct L as [Le Ll].
    apply negb_true_iff in Le.
    destruct (step_stays_shut basename e v D Le) as [D' [N' I']].
    rewrite <- N', <- I'. now apply IH.
Qed.

Lemma shutdown_is_final_witness :
  let w := runEvents Path.basename [Started true] newUploader in
  let w' := runEvents Path.basename
              [CommandBus enable_upload; ConfigurationChanged false;
               ConfigurationChanged true;
               CartridgesResolved 0 (mkDWConfig "dw.json" None None)
                 ["/ws/app_core"] (mkSettings true [])]
              (step Path.basename Disposed w) in
  ShutDown w'
  /\ nextSubscription w' = nextSubscription w
  /\ inits w' = inits w.
Proof.
  exact (shutdown_is_final Path.basename [Started true]
           [CommandBus enable_upload; ConfigurationChanged false;
            ConfigurationChanged true;
            CartridgesResolved 0 (mkDWConfig "dw.json" None None)
              ["/ws/app_core"] (mkSettings true [])]
           eq_refl).
Defined.

(** X11: a configuration change is acted on only when the enabled flag
    differs from the last value seen: delivering the same change twice
    is the same as delivering it once, in every state. *)
Theorem configuration_change_idempotent (basename : string -> string)
    (enabled : bool) (w : World) :
  step basename (ConfigurationChanged enabled)
       (step basename (ConfigurationChanged enabled) w)
  = step basename (ConfigurationChanged enabled) w.
Proof.
  simpl. destruct (configSubscription w) eqn:C; [|now rewrite C].
  destruct (negb (sameState enabled (prevState w))) eqn:S0.
  - assert (R : forall v,
               prevState v = Some enabled -> configSubscription v = true ->
               (if configSubscription v
                then onDidChangeConfiguration enabled v else v) = v).
    { intros v P Q. rewrite Q. unfold onDidChangeConfiguration.
      rewrite P. simpl. now rewrite Bool.eqb_reflx. }
    destruct enabled; apply R; unfold onDidChangeConfiguration;
      rewrite S0.
    + now rewrite (proj1 (loadUploaderConfig_listeners _)).
    + destruct (loadUploaderConfig_listeners
                  (set_prevState (Some true) w)) as [_ [_ [X _]]].
      now rewrite X.
    + now rewrite (proj1 (stopSession_listeners _)).
    + destruct (stopSession_listeners
                  (set_prevState (Some false) w)) as [_ [_ [X _]]].
      now rewrite X.
  - unfold onDidChangeConfiguration. rewrite S0, C, S0. reflexivity.
Qed.

(** X12: a restart supersedes the running session for good.  When any
    event constructs a new session, the session that was open before is
    closed, the new handle differs from it, and nothing the old
    session's pipeline still delivers - its configuration, its
    cartridges, an error, its completion - changes the state: the
    transport is not started for it and no error is written for it. *)
Theorem superseded_session_is_dropped (basename : string -> string)
    (events : list Event) (e : Event) (s : nat) :
  let w := runEvents basename events newUploader in
  isOpen s w = true ->
  nextSubscription (step basename e w) <> nextSubscription w ->
  let w' := step basename e w in
  isOpen s w' = false
  /\ uploaderSubscription w' <> Some s
  /\ (forall d, step basename (DwConfLoaded s d) w' = w')
  /\ (forall d cs st, step basename (CartridgesResolved s d cs st) w' = w')
  /\ (forall err, step basename (SessionFailed s err) w' = w')
  /\ step basename (SessionCompleted s) w' = w'.
Proof.
  intros w O N w'.
  assert (H : AtMostOneSession w)
    by (apply runEvents_keeps_one, newUploader_one).
  assert (F : FreshHandles w)
    by (apply runEvents_fresh; [apply newUploader_one|apply newUploader_fresh]).
  destruct (step_new_session basename e w H N) as [A B].
  assert (L : s < nextSubscription w)
    by (apply (proj1 F); now apply isOpen_In).
  assert (C : isOpen s w' = false).
  { unfold w', isOpen. rewrite A. simpl.
    destruct (Nat.eqb_spec s (nextSubscription w)); [lia|reflexivity]. }
  split; [exact C|]. split.
  - unfold w'. rewrite B. intros X. inversion X. lia.
  - now apply closed_session_ignored.
Qed.

Lemma superseded_session_is_dropped_witness :
  let w := runEvents Path.basename [Started true] newUploader in
  let w' := step Path.basename (CommandBus clean_upload) w in
  isOpen 0 w' = false
  /\ uploaderSubscription w' <> Some 0
  /\ (forall d, step Path.basename (DwConfLoaded 0 d) w' = w')
  /\ (forall d cs st,
        step Path.basename (CartridgesResolved 0 d cs st) w' = w')
  /\ (forall err, step Path.basename (SessionFailed 0 err) w' = w')
  /\ step Path.basename (SessionCompleted 0) w' = w'.
Proof.
  apply (superseded_session_is_dropped Path.basename [Started true]
           (CommandBus clean_upload) 0 eq_refl).
  vm_compute. discriminate.
Defined.

(** X13: the error and completion callbacks do not clear
    [uploaderSubscription].  After a session has failed the uploader is
    stopped but still holds the closed handle, so the next
    [enable.upload] or [clean.upload] announces "Restarting" (not
    "Starting..."), and [disable.upload] still writes "Stopping". *)
Theorem failed_session_keeps_its_handle (basename : string -> string)
    (events : list Event) (s : nat) (err : Thrown) :
  let w := runEvents basename events newUploader in
  isOpen s w = true ->
  commandSubs w = true ->
  let failed := step basename (SessionFailed s err) w in
  Stopped failed
  /\ uploaderSubscription failed = Some s
  /\ (forall command,
        outputChannel (step basename (CommandBus command) failed)
        = (outputChannel failed
           ++ [appendLine match command with
                          | disable_upload => "Stopping"
                          | _ => "Restarting"
                          end])%list).
Proof.
  intros w O C failed.
  assert (H : AtMostOneSession w)
    by (apply runEvents_keeps_one, newUploader_one).
  assert (U : uploaderSubscription w = Some s).
  { apply isOpen_In in O. destruct H as [E|[x [E U]]];
      [unfold Stopped in E; rewrite E in O; contradiction|].
    rewrite E in O. destruct O as [<-|[]]. exact U. }
  assert (UF : uploaderSubscription failed = Some s).
  { unfold failed. simpl. rewrite O. simpl. now destruct err. }
  assert (CF : commandSubs failed = true).
  { unfold failed. simpl. rewrite O. simpl. now destruct err. }
  split; [|split; [exact UF|]].
  - unfold failed. simpl. rewrite O. unfold Stopped. simpl.
    assert (E : openSubscriptions (onError err w) = openSubscriptions w)
      by now destruct err.
    rewrite E. apply (unsubscribe_open_stops s w H O).
  - intros command. simpl. rewrite CF.
    destruct command; unfold_handlers; rewrite UF; reflexivity.
Qed.

Lemma failed_session_keeps_its_handle_witness :
  let w := runEvents Path.basename [Started true] newUploader in
  let failed := step Path.basename
                  (SessionFailed 0 (OtherValue "ECONNREFUSED")) w in
  Stopped failed
  /\ uploaderSubscription failed = Some 0
  /\ (forall command,
        outputChannel (step Path.basename (CommandBus command) failed)
        = (outputChannel failed
           ++ [appendLine match command with
                          | disable_upload => "Stopping"
                          | _ => "Restarting"
                          end])%list).
Proof.
  exact (failed_session_keeps_its_handle Path.basename [Started true] 0
           (OtherValue "ECONNREFUSED") eq_refl eq_refl).
Defined.

(** ** Opening files from the browser *)

Lemma prefix_empty (s : string) : prefix "" s = true.
Proof. now destruct s. Qed.

Lemma prefix_slash (c : ascii) (s t : string) :
  prefix "/" (String c s) = prefix "/" (String c t).
Proof. cbn [prefix]. now rewrite !prefix_empty. Qed.

Lemma append_empty_r (s : string) : s ++ "" = s.
Proof. induction s as [|c s IH]; simpl; [reflexivity|now rewrite IH]. Qed.

Lemma append_assoc (a b c : string) : (a ++ b) ++ c = a ++ (b ++ c).
Proof. induction a as [|x a IH]; simpl; [reflexivity|now rewrite IH]. Qed.

Lemma string_of_list_ascii_append (l1 l2 : list ascii) :
  string_of_list_ascii (l1 ++ l2)
  = string_of_list_ascii l1 ++ string_of_list_ascii l2.
Proof. induction l1 as [|c l1 IH]; simpl; [reflexivity|now rewrite IH]. Qed.

Lemma finish_cons (c : ascii) (cur : list ascii) (s : string) :
  Str.finish (c :: cur) ++ s = Str.finish cur ++ String c s.
Proof.
  unfold Str.finish. simpl.
  now rewrite string_of_list_ascii_append, append_assoc.
Qed.

Lemma splitFrom_nonempty (separator s : string) (skip : nat)
    (cur : list ascii) :
  Str.splitFrom separator s skip cur <> [].
Proof.
  revert skip cur. induction s as [|c s IH]; intros skip cur.
  - destruct skip; discriminate.
  - destruct skip; cbn [Str.splitFrom]; [|apply IH].
    destruct (prefix separator (String c s)); [discriminate|apply IH].
Qed.

(** Splitting at [/] and joining with [/] gives the text back. *)
Lemma join_splitFrom_slash (s : string) (cur : list ascii) :
  JS.join "/" (Str.splitFrom "/" s 0 cur) = Str.finish cur ++ s.
Proof.
  revert cur. induction s as [|c s IH]; intros cur.
  - simpl. now rewrite append_empty_r.
  - cbn [Str.splitFrom].
    destruct (prefix "/" (String c s)) eqn:P.
    + assert (C : c = "/"%char).
      { cbn [prefix] in P.
        destruct (ascii_dec "/" c); [now subst|discriminate]. }
      subst c. change (String.length "/" - 1) with 0.
      pose proof (IH []) as J.
      pose proof (splitFrom_nonempty "/" s 0 []) as N.
      cbn [JS.join].
      destruct (Str.splitFrom "/" s 0 []) as [|y ys]; [contradiction|].
      rewrite J. reflexivity.
    + rewrite IH. apply finish_cons.
Qed.

(** A text without [/], followed by [/], is the first piece. *)
Lemma splitFrom_first_piece (name rest : string) (cur : list ascii) :
  Str.includes name "/" = false ->
  Str.splitFrom "/" (name ++ "/" ++ rest) 0 cur
  = (Str.finish cur ++ name) :: Str.splitFrom "/" rest 0 [].
Proof.
  revert cur. induction name as [|c name IH]; intros cur I.
  - change ("" ++ "/" ++ rest) with (String "/" rest).
    cbn [Str.splitFrom]. rewrite (prefix_slash "/" rest ""). cbn [prefix].
    destruct (ascii_dec "/" "/"); [|contradiction].
    change (String.length "/" - 1) with 0. now rewrite append_empty_r.
  - cbn [Str.includes] in I.
    destruct (prefix "/" (String c name)) eqn:P; [discriminate|].
    change (String c name ++ "/" ++ rest)
      with (String c (name ++ "/" ++ rest)).
    cbn [Str.splitFrom].
    rewrite (prefix_slash c (name ++ "/" ++ rest) name), P.
    rewrite IH by assumption. now rewrite finish_cons.
Qed.

Lemma substring_zero (n : nat) (s : string) : substring n 0 s = "".
Proof.
  revert n. induction s as [|c s IH]; intros [|n]; simpl; auto.
Qed.

Lemma endsWith_empty (s : string) : JS.endsWith s "" = true.
Proof.
  unfold JS.endsWith. simpl. now rewrite substring_zero.
Qed.



(** X14: for a debugger path made of one character, a cartridge name
    without [/], a [/] and a remainder, on a platform whose separator is
    [/], [convertDebuggerPathToClient] drops the first character whatever
    it is, picks the first cartridge in order whose path ends with the
    name, and joins it with the remainder unchanged; when no cartridge
    path ends with the name (or the one found is the empty path) it
    shows "Unable match cartridge" and returns the empty path. *)
Theorem convertDebuggerPathToClient_first_match
    (pathJoin : string -> string -> string) (lead : ascii)
    (name rest : string) (cartridges : list string) :
  Str.includes name "/" = false ->
  convertDebuggerPathToClient pathJoin "/"
    (String lead (name ++ "/" ++ rest)) cartridges
  = match find (fun cartridge => JS.endsWith cartridge name) cartridges with
    | Some cartPath =>
        if (cartPath =? "")%string
        then ("", [showErrorMessage "Unable match cartridge"])
        else (pathJoin cartPath rest, [])
    | None => ("", [showErrorMessage "Unable match cartridge"])
    end.
Proof.
  intros I. unfold convertDebuggerPathToClient, Str.split.
  cbn [Str.substr1]. rewrite (splitFrom_first_piece name rest [] I).
  cbn [hd tl]. change (Str.finish [] ++ name) with name.
  rewrite (join_splitFrom_slash rest []).
  change (Str.finish [] ++ rest) with rest.
  destruct (find _ cartridges) as [cartPath|]; [|reflexivity].
  now destruct (cartPath =? "")%string.
Qed.

Lemma convertDebuggerPathToClient_first_match_witness :
  convertDebuggerPathToClient (fun a b => a ++ "/" ++ b) "/"
    "/app_core/cartridge/controllers/Home.js"
    ["/ws/int_pay"; "/ws/app_core"; "/other/app_core"]
  = ("/ws/app_core/cartridge/controllers/Home.js", []).
Proof.
  exact (convertDebuggerPathToClient_first_match
           (fun a b => a ++ "/" ++ b) "/"%char "app_core"
           "cartridge/controllers/Home.js"
           ["/ws/int_pay"; "/ws/app_core"; "/other/app_core"] eq_refl).
Defined.

(** X15: a debugger path whose cartridge segment is empty - the empty
    path, a single character, or a path with [/] as its second character
    - matches every cartridge, so it resolves to the first cartridge of
    the list. *)
Theorem convertDebuggerPathToClient_empty_segment
    (pathJoin : string -> string -> string) (sep debuggerPath : string)
    (cartPath : string) (cartridges : list string) :
  hd "" (Str.split (Str.substr1 debuggerPath) "/") = "" ->
  cartPath <> "" ->
  convertDebuggerPathToClient pathJoin sep debuggerPath
    (cartPath :: cartridges)
  = (pathJoin cartPath
       (JS.join sep (tl (Str.split (Str.substr1 debuggerPath) "/"))),
     []).
Proof.
  intros E N. unfold convertDebuggerPathToClient. rewrite E.
  cbn [find]. rewrite endsWith_empty.
  destruct (cartPath =? "")%string eqn:Q; [|reflexivity].
  apply String.eqb_eq in Q. contradiction.
Qed.

Lemma convertDebuggerPathToClient_empty_segment_witness :
  convertDebuggerPathToClient (fun a b => a ++ "/" ++ b) "/"
    "//cartridge/scripts/util.js" ["/ws/int_pay"; "/ws/app_core"]
  = ("/ws/int_pay/cartridge/scripts/util.js", []).
Proof.
  apply (convertDebuggerPathToClient_empty_segment
           (fun a b => a ++ "/" ++ b) "/" "//cartridge/scripts/util.js"
           "/ws/int_pay" ["/ws/app_core"]).
  - reflexivity.
  - discriminate.
Defined.

Section ToolkitFacts.

Variable pathJoin : string -> string -> string.
Variable sep : string.
Variable existsSync : string -> bool.



End ToolkitFacts.


Lemma convert_shown (pathJoin : string -> string -> string)
    (sep debuggerPath : string) (cartridges : list string) (p : string) :
  ~ In (openFile p)
       (snd (convertDebuggerPathToClient pathJoin sep debuggerPath
               cartridges)).
Proof.
  unfold convertDebuggerPathToClient.
  destruct (find _ cartridges) as [c|];
    [destruct (negb (c =? "")%string)|]; simpl; intros H;
    repeat (destruct H as [H|H]; try discriminate); assumption.
Qed.

(** X17: the handler opens a file only when [existsSync] finds it, and
    which one is fixed: the path computed from the requested target, or,
    only when that one does not exist, the same path with its first
    [.js] replaced by [.ds].  No other file is opened for the request. *)
Theorem handleRequest_opens_existing_file
    (pathJoin : string -> string -> string) (sep : string)
    (existsSync : string -> bool) (url : option string)
    (cartridges : list string) (path : string) :
  In (openFile path)
     (fst (handleRequest pathJoin sep existsSync url cartridges)) ->
  existsSync path = true
  /\ (exists u reqUrl,
        url = Some u /\ requestedTarget u = Some reqUrl
        /\ let clientFilePath :=
             fst (convertDebuggerPathToClient pathJoin sep reqUrl
                    cartridges) in
           path = clientFilePath
           \/ (existsSync clientFilePath = false
               /\ path = Str.replace clientFilePath ".js" ".ds"))
  /\ (forall other,
        In (openFile other)
           (fst (handleRequest pathJoin sep existsSync url cartridges)) ->
        other = path).
Proof.
  unfold handleRequest. cbv zeta.
  destruct url as [u|]; cbv iota.
  2:{ cbn [truthy andb]. simpl. intros [H|[H|[]]]; discriminate. }
  destruct (truthy (Some u) && Str.includes u "/target").
  2:{ simpl. intros [H|[H|[]]]; discriminate. }
  destruct (requestedTarget u) as [reqUrl|] eqn:R.
  2:{ simpl. intros [H|[H|[]]]; discriminate. }
  pose proof (convert_shown pathJoin sep reqUrl cartridges) as NS.
  destruct (convertDebuggerPathToClient pathJoin sep reqUrl cartridges)
    as [client shown] eqn:Cv.
  cbn [fst snd] in *.
  assert (W : forall p m,
             ~ In (openFile p)
                  ([writeHead200; endOk] ++ shown
                     ++ [showToolkitWarning m])%list).
  { intros p m H. apply in_app_iff in H. destruct H as [[H|[H|[]]]|H];
      try discriminate.
    apply in_app_iff in H. destruct H as [H|[H|[]]];
      [now apply (NS p)|discriminate]. }
  assert (O : forall p f,
             In (openFile p)
                ([writeHead200; endOk] ++ shown ++ [openFile f])%list ->
             p = f).
  { intros p f H. apply in_app_iff in H. destruct H as [[H|[H|[]]]|H];
      try discriminate.
    apply in_app_iff in H. destruct H as [H|[H|[]]];
      [now elim (NS p)|now inversion H]. }
  destruct (negb (client =? "")%string);
    [|intros H; now elim (W _ _ H)].
  cbn [find].
  destruct (existsSync client) eqn:EC.
  - destruct (negb (client =? "")%string);
      [|intros H; now elim (W _ _ H)].
    cbn [fst]. intros H. apply O in H. subst path.
    split; [exact EC|]. split.
    + exists u, reqUrl. split; [reflexivity|]. split; [exact R|].
      rewrite Cv. cbn. now left.
    + intros other H. now apply O in H.
  - destruct (existsSync (Str.replace client ".js" ".ds")) eqn:ER;
      [|intros H; now elim (W _ _ H)].
    destruct (negb (Str.replace client ".js" ".ds" =? "")%string);
      [|intros H; now elim (W _ _ H)].
    cbn [fst]. intros H. apply O in H. subst path.
    split; [exact ER|]. split.
    + exists u, reqUrl. split; [reflexivity|]. split; [exact R|].
      rewrite Cv. cbn. right. now split.
    + intros other H. now apply O in H.
Qed.

Lemma handleRequest_opens_existing_file_witness :
  existsSync_ds "/ws/app_core/cartridge/scripts/util.ds" = true
  /\ (exists u reqUrl,
        Some "/target=/app_core/cartridge/scripts/util.js&line=3" = Some u
        /\ requestedTarget u = Some reqUrl
        /\ let clientFilePath :=
             fst (convertDebuggerPathToClient (fun a b => a ++ "/" ++ b)
                    "/" reqUrl ["/ws/app_core"]) in
           "/ws/app_core/cartridge/scripts/util.ds" = clientFilePath
           \/ (existsSync_ds clientFilePath = false
               /\ "/ws/app_core/cartridge/scripts/util.ds"
                  = Str.replace clientFilePath ".js" ".ds"))
  /\ (forall other,
        In (openFile other)
           (fst (handleRequest (fun a b => a ++ "/" ++ b) "/" existsSync_ds
                   (Some "/target=/app_core/cartridge/scripts/util.js&line=3")
                   ["/ws/app_core"])) ->
        other = "/ws/app_core/cartridge/scripts/util.ds").
Proof.
  apply (handleRequest_opens_existing_file (fun a b => a ++ "/" ++ b) "/"
           existsSync_ds
           (Some "/target=/app_core/cartridge/scripts/util.js&line=3")
           ["/ws/app_core"] "/ws/app_core/cartridge/scripts/util.ds").
  vm_compute. auto.
Defined.

(** ** The process *)

Section ProcessFacts.

Variable basename : string -> string.

Lemma ShutDown_stopped (w : World) : ShutDown w -> AtMostOneSession w.
Proof. intros [_ [_ S0]]. now left. Qed.

Lemma deliver_keeps (e : Event) (fc : bool) (w : World) :
  isStart e = false ->
  Keeps w (step basename e (set_firstClean fc w)).
Proof.
  intros N. split.
  - intros D. now apply step_stays_shut.
  - intros H. apply step_keeps_one. revert H.
    now apply AtMostOneSession_frame.
Qed.

Lemma Keeps_refl (w : World) : Keeps w w.
Proof. split; auto. Qed.

Lemma broadcast_keeps (e : Event) (fc : bool) (ws : list World) :
  isStart e = false ->
  Forall2 Keeps ws (snd (broadcast basename e fc ws)).
Proof.
  intros N. induction ws as [|w ws IH]; simpl; constructor.
  - now apply deliver_keeps.
  - exact IH.
Qed.

Lemma deliverTo_keeps (i : nat) (e : Event) (fc : bool) (ws : list World) :
  isStart e = false ->
  Forall2 Keeps ws (snd (deliverTo basename i e fc ws)).
Proof.
  intros N. revert i. induction ws as [|w ws IH]; intros i;
    [destruct i; constructor|].
  destruct i as [|j]; simpl.
  - constructor; [now apply deliver_keeps|].
    clear. induction ws; constructor; [apply Keeps_refl|assumption].
  - specialize (IH j).
    destruct (deliverTo basename j e fc ws) as [fc' older'].
    simpl in *. constructor; [apply Keeps_refl|assumption].
Qed.

Lemma Forall2_Keeps_ShutDown (ws ws' : list World) :
  Forall2 Keeps ws ws' -> Forall ShutDown ws -> Forall ShutDown ws'.
Proof.
  induction 1 as [|w w' ws ws' K _ IH]; intros F; constructor;
    inversion F; subst; [now apply K|now apply IH].
Qed.

Lemma OneLiveUploader_keeps (live : bool) (ws ws' : list World) :
  Forall2 Keeps ws ws' ->
  OneLiveUploader live ws -> OneLiveUploader live ws'.
Proof.
  intros K. destruct K as [|w w' ws ws' K Ks]; [auto|].
  intros [A [F D]].
  split; [now apply K|]. split; [now apply (Forall2_Keeps_ShutDown ws)|].
  intros L. apply K. now apply D.
Qed.

Lemma torn_down (live : bool) (fc : bool) (ws : list World) :
  OneLiveUploader live ws ->
  Forall ShutDown
    (snd (if live then deliverTo basename 0 Disposed fc ws else (fc, ws))).
Proof.
  destruct ws as [|w older]; [now destruct live|].
  intros [A [F D]]. destruct live; simpl.
  - constructor; [|assumption].
    apply shutDown_shuts. revert A. now apply AtMostOneSession_frame.
  - constructor; [now apply D|assumption].
Qed.

Lemma processStep_keeps_one_live (e : ProcessEvent) (p : Process) :
  OneLiveUploader (subs p) (uploaders p) ->
  OneLiveUploader (subs (processStep basename e p))
                  (uploaders (processStep basename e p)).
Proof.
  intros H. destruct e as [c|en|i e|folders en]; simpl.
  - pose proof (broadcast_keeps (CommandBus c) (moduleFirstClean p)
                  (uploaders p) eq_refl) as K.
    destruct (broadcast basename (CommandBus c) (moduleFirstClean p)
                (uploaders p)) as [fc ws].
    simpl in *. now apply (OneLiveUploader_keeps _ (uploaders p)).
  - pose proof (broadcast_keeps (ConfigurationChanged en)
                  (moduleFirstClean p) (uploaders p) eq_refl) as K.
    destruct (broadcast basename (ConfigurationChanged en)
                (moduleFirstClean p) (uploaders p)) as [fc ws].
    simpl in *. now apply (OneLiveUploader_keeps _ (uploaders p)).
  - destruct (fromSession e) eqn:Fs; [|assumption].
    assert (N : isStart e = false) by (destruct e; auto; discriminate).
    pose proof (deliverTo_keeps i e (moduleFirstClean p) (uploaders p) N)
      as K.
    destruct (deliverTo basename i e (moduleFirstClean p) (uploaders p))
      as [fc ws].
    simpl in *. now apply (OneLiveUploader_keeps _ (uploaders p)).
  - unfold updateFolders.
    pose proof (torn_down (subs p) (moduleFirstClean p) (uploaders p) H)
      as T.
    destruct (if subs p
              then deliverTo basename 0 Disposed (moduleFirstClean p)
                             (uploaders p)
              else (moduleFirstClean p, uploaders p)) as [fc ws].
    simpl in T. destruct folders; simpl.
    + split; [apply (step_keeps_one basename (Started en)); now left|].
      split; [assumption|discriminate].
    + destruct ws as [|w older]; simpl; [exact I|].
      inversion T; subst.
      split; [now apply ShutDown_stopped|]. split; auto.
Qed.

Lemma runProcess_keeps_one_live (events : list ProcessEvent) (p : Process) :
  OneLiveUploader (subs p) (uploaders p) ->
  OneLiveUploader (subs (runProcess basename events p))
                  (uploaders (runProcess basename events p)).
Proof.
  revert p. induction events as [|e events IH]; intros p H; simpl.
  - assumption.
  - apply IH. now apply processStep_keeps_one_live.
Qed.

Lemma shut_down_uploaders_run_nothing (ws : list World) :
  Forall ShutDown ws -> concat (map openSubscriptions ws) = [].
Proof.
  induction 1 as [|w ws [_ [_ S0]] _ IH]; simpl; [reflexivity|].
  unfold Stopped in S0. now rewrite S0, IH.
Qed.

End ProcessFacts.

(** X18: over the whole process - whatever commands, setting changes,
    session results and workspace-folder changes arrive, in whatever
    order - at most one upload session is open among all the uploaders
    [initialize] has ever constructed: every uploader but the latest has
    been shut down before its successor was built, and when no uploader
    is subscribed no session is open at all. *)
Theorem one_session_per_process (basename : string -> string)
    (events : list ProcessEvent) :
  let p := runProcess basename events startOfProcess in
  List.length (openInProcess p) <= 1
  /\ Forall ShutDown (tl (uploaders p))
  /\ (subs p = false -> openInProcess p = []).
Proof.
  intros p.
  assert (H : OneLiveUploader (subs p) (uploaders p))
    by (apply runProcess_keeps_one_live; exact I).
  unfold openInProcess. destruct (uploaders p) as [|w older]; simpl.
  - repeat split; auto.
  - destruct H as [A [F D]].
    rewrite (shut_down_uploaders_run_nothing older F), app_nil_r.
    split; [|split].
    + destruct A as [E|[s [E _]]]; unfold Stopped in *; rewrite E;
        simpl; lia.
    + exact F.
    + intros L. now destruct (D L) as [_ [_ S0]].
Qed.

Lemma one_session_per_process_witness :
  openInProcess
    (runProcess Path.basename
       [WorkspaceFoldersChanged true true; CommandIssued clean_upload;
        WorkspaceFoldersChanged true true; WorkspaceFoldersChanged false true]
       startOfProcess) = [].
Proof.
  apply (proj2 (proj2 (one_session_per_process Path.basename
           [WorkspaceFoldersChanged true true; CommandIssued clean_upload;
            WorkspaceFoldersChanged true true;
            WorkspaceFoldersChanged false true]))).
  reflexivity.
Defined.

(** ** [clean.on.start] over the whole process *)

Section ProcessClean.

Variable basename : string -> string.

Lemma totalOver_cons (f : World -> nat) (w : World) (ws : list World) :
  totalOver f (w :: ws) = f w + totalOver f ws.
Proof. reflexivity. Qed.

(** One delivery, seen on the three fields it may touch. *)
Lemma deliver_clean (e : Event) (fc : bool) (w : World) :
  let w' := step basename e (set_firstClean fc w) in
  (firstClean w' = fc
   /\ cleanOnStartReads w' = cleanOnStartReads w
   /\ inits w' = inits w)
  \/ (exists c,
        inits w' = (inits w ++ [c])%list
        /\ firstClean w' = false
        /\ init_cleanOnStart c = (if fc then init_cleanOnStart c else true)
        /\ cleanOnStartReads w'
           = (if fc then S (cleanOnStartReads w) else cleanOnStartReads w)).
Proof.
  destruct e as [c|en|en|s d|s d cs st|s err|s|]; simpl.
  - left. destruct (commandSubs w); [|auto].
    destruct c; unfold_handlers; simpl;
      destruct (uploaderSubscription w); auto.
  - left. unfold_handlers. destruct en; simpl;
      try destruct (uploaderSubscription w); auto.
  - left. destruct (configSubscription w); [|auto].
    unfold_handlers. simpl.
    destruct (negb (sameState en (prevState w))); [|auto].
    destruct en; simpl; destruct (uploaderSubscription w); auto.
  - left. destruct (isOpen s (set_firstClean fc w)); auto.
  - destruct (isOpen s (set_firstClean fc w)); [|left; auto].
    right.
    destruct (onCartridges_init basename s d cs st (set_firstClean fc w))
      as [I [F [R _]]].
    eexists. split; [exact I|]. split; [exact F|]. simpl in *.
    split; [now destruct fc|exact R].
  - left. destruct (isOpen s (set_firstClean fc w)); [|auto].
    now destruct err.
  - left. destruct (isOpen s (set_firstClean fc w)); auto.
  - left. unfold_handlers. simpl.
    destruct (uploaderSubscription w); auto.
Qed.

Lemma falseInits_snoc (w w' : World) (c : InitCall) :
  inits w' = (inits w ++ [c])%list ->
  falseInits w' = falseInits w + (if init_cleanOnStart c then 0 else 1).
Proof.
  intros E. unfold falseInits. rewrite E, filter_app, length_app. simpl.
  now destruct (init_cleanOnStart c).
Qed.

Lemma deliver_reads_at_most_once (e : Event) (fc : bool) (w : World)
    (ws : list World) :
  ReadsAtMostOnce fc (w :: ws)
    (firstClean (step basename e (set_firstClean fc w)))
    (step basename e (set_firstClean fc w) :: ws).
Proof.
  unfold ReadsAtMostOnce. rewrite !totalOver_cons.
  destruct (deliver_clean e fc w) as [[F [R I]]|[c [I [F [Fl R]]]]].
  - left. unfold falseInits, initCalls. rewrite F, R, I.
    split; [reflexivity|]. split; [reflexivity|]. split; reflexivity.
  - pose proof (falseInits_snoc _ _ c I) as FI.
    destruct fc.
    + right. rewrite F, R, FI.
      split; [reflexivity|]. split; [reflexivity|]. split; [reflexivity|].
      destruct (init_cleanOnStart c); lia.
    + left. rewrite F, R, FI, Fl.
      split; [reflexivity|]. split; [reflexivity|]. split; [lia|].
      discriminate.
Qed.

Lemma ReadsAtMostOnce_refl (fc : bool) (ws : list World) :
  ReadsAtMostOnce fc ws fc ws.
Proof. left. auto. Qed.

Lemma ReadsAtMostOnce_trans (fc fc' fc'' : bool) (a b c : list World) :
  ReadsAtMostOnce fc a fc' b -> ReadsAtMostOnce fc' b fc'' c ->
  ReadsAtMostOnce fc a fc'' c.
Proof.
  unfold ReadsAtMostOnce.
  intros [[E1 [R1 [F1 L1]]]|[T1 [E1 [R1 F1]]]]
         [[E2 [R2 [F2 L2]]]|[T2 [E2 [R2 F2]]]].
  - left. split; [congruence|]. split; [lia|]. split; [lia|].
    intros T. rewrite L2, L1; congruence.
  - right. split; [congruence|]. split; [assumption|]. split; lia.
  - right. split; [assumption|]. split; [congruence|]. split; lia.
  - congruence.
Qed.

(** Uploaders that are not delivered to count the same before and
    after. *)
Lemma ReadsAtMostOnce_under (w : World) (fc fc' : bool)
    (a b : list World) :
  ReadsAtMostOnce fc a fc' b -> ReadsAtMostOnce fc (w :: a) fc' (w :: b).
Proof.
  unfold ReadsAtMostOnce. rewrite !totalOver_cons.
  intros [[E [R [F L]]]|[T [E [R F]]]].
  - left. split; [assumption|]. split; [lia|]. split; [lia|].
    intros T. rewrite (L T). reflexivity.
  - right. split; [assumption|]. split; [assumption|]. split; lia.
Qed.

Lemma ReadsAtMostOnce_over (w w' : World) (fc fc' fc'' : bool)
    (a b : list World) :
  ReadsAtMostOnce fc a fc' b ->
  ReadsAtMostOnce fc' (w :: b) fc'' (w' :: b) ->
  ReadsAtMostOnce fc (w :: a) fc'' (w' :: b).
Proof.
  intros H1 H2. apply (ReadsAtMostOnce_trans fc fc' fc'' _ (w :: b));
    [now apply ReadsAtMostOnce_under|assumption].
Qed.

Lemma broadcast_reads_at_most_once (e : Event) (fc : bool)
    (ws : list World) :
  ReadsAtMostOnce fc ws (fst (broadcast basename e fc ws))
                  (snd (broadcast basename e fc ws)).
Proof.
  induction ws as [|w ws IH]; simpl; [apply ReadsAtMostOnce_refl|].
  apply (ReadsAtMostOnce_over w _ fc _ _ ws _ IH).
  apply deliver_reads_at_most_once.
Qed.

Lemma deliverTo_reads_at_most_once (i : nat) (e : Event) (fc : bool)
    (ws : list World) :
  ReadsAtMostOnce fc ws (fst (deliverTo basename i e fc ws))
                  (snd (deliverTo basename i e fc ws)).
Proof.
  revert i. induction ws as [|w ws IH]; intros i;
    [destruct i; apply ReadsAtMostOnce_refl|].
  destruct i as [|j]; simpl.
  - apply deliver_reads_at_most_once.
  - specialize (IH j).
    destruct (deliverTo basename j e fc ws) as [fc' older'].
    simpl in *. now apply ReadsAtMostOnce_under.
Qed.

Lemma CleanReadOncePerProcess_step (fc fc' : bool) (a b : list World) :
  ReadsAtMostOnce fc a fc' b ->
  CleanReadOncePerProcess fc a -> CleanReadOncePerProcess fc' b.
Proof.
  unfold ReadsAtMostOnce, CleanReadOncePerProcess.
  intros [[E [R [F L]]]|[T [E [R F]]]]
         [[T0 [R0 [F0 L0]]]|[T0 [R0 F0]]].
  - left. split; [congruence|]. split; [lia|]. split; [lia|].
    rewrite (L T0). exact L0.
  - right. split; [congruence|]. split; lia.
  - right. split; [assumption|]. split; lia.
  - congruence.
Qed.

Lemma processStep_clean (e : ProcessEvent) (p : Process) :
  CleanReadOncePerProcess (moduleFirstClean p) (uploaders p) ->
  CleanReadOncePerProcess (moduleFirstClean (processStep basename e p))
                          (uploaders (processStep basename e p)).
Proof.
  intros H. destruct e as [c|en|i e|folders en]; simpl.
  - pose proof (broadcast_reads_at_most_once (CommandBus c)
                  (moduleFirstClean p) (uploaders p)) as K.
    destruct (broadcast basename (CommandBus c) (moduleFirstClean p)
                (uploaders p)) as [fc ws].
    simpl in *. now apply (CleanReadOncePerProcess_step _ _ _ _ K).
  - pose proof (broadcast_reads_at_most_once (ConfigurationChanged en)
                  (moduleFirstClean p) (uploaders p)) as K.
    destruct (broadcast basename (ConfigurationChanged en)
                (moduleFirstClean p) (uploaders p)) as [fc ws].
    simpl in *. now apply (CleanReadOncePerProcess_step _ _ _ _ K).
  - destruct (fromSession e); [|assumption].
    pose proof (deliverTo_reads_at_most_once i e (moduleFirstClean p)
                  (uploaders p)) as K.
    destruct (deliverTo basename i e (moduleFirstClean p) (uploaders p))
      as [fc ws].
    simpl in *. now apply (CleanReadOncePerProcess_step _ _ _ _ K).
  - unfold updateFolders.
    assert (K : ReadsAtMostOnce (moduleFirstClean p) (uploaders p)
                  (fst (if subs p
                        then deliverTo basename 0 Disposed
                               (moduleFirstClean p) (uploaders p)
                        else (moduleFirstClean p, uploaders p)))
                  (snd (if subs p
                        then deliverTo basename 0 Disposed
                               (moduleFirstClean p) (uploaders p)
                        else (moduleFirstClean p, uploaders p)))).
    { destruct (subs p); [apply deliverTo_reads_at_most_once|].
      apply ReadsAtMostOnce_refl. }
    destruct (if subs p
              then deliverTo basename 0 Disposed (moduleFirstClean p)
                             (uploaders p)
              else (moduleFirstClean p, uploaders p)) as [fc ws].
    simpl in K.
    pose proof (CleanReadOncePerProcess_step _ _ _ _ K H) as H1.
    destruct folders; simpl; [|assumption].
    pose proof (deliver_reads_at_most_once (Started en) fc newUploader ws)
      as K2.
    apply (CleanReadOncePerProcess_step _ _ _ _ K2).
    unfold CleanReadOncePerProcess in *. rewrite !totalOver_cons.
    exact H1.
Qed.

Lemma runProcess_clean (events : list ProcessEvent) (p : Process) :
  CleanReadOncePerProcess (moduleFirstClean p) (uploaders p) ->
  CleanReadOncePerProcess
    (moduleFirstClean (runProcess basename events p))
    (uploaders (runProcess basename events p)).
Proof.
  revert p. induction events as [|e events IH]; intros p H; simpl.
  - assumption.
  - apply IH. now apply processStep_clean.
Qed.

End ProcessClean.

(** X19: over the whole process, across every uploader [initialize]
    constructs, the [clean.on.start] setting is read at most once and at
    most one call of [uploadServer.init] is handed [cleanOnStart = false];
    as long as the module's [firstClean] is still set, the transport has
    not been started at all. *)
Theorem clean_on_start_read_once_per_process (basename : string -> string)
    (events : list ProcessEvent) :
  let p := runProcess basename events startOfProcess in
  totalOver cleanOnStartReads (uploaders p) <= 1
  /\ totalOver falseInits (uploaders p) <= 1
  /\ (moduleFirstClean p = true -> totalOver initCalls (uploaders p) = 0).
Proof.
  intros p.
  assert (H : CleanReadOncePerProcess (moduleFirstClean p) (uploaders p)).
  { apply runProcess_clean. left. repeat split; reflexivity. }
  destruct H as [[T [R [F L]]]|[T [R F]]].
  - rewrite R, F. repeat split; auto.
  - repeat split; auto. intros T'. congruence.
Qed.

Lemma clean_on_start_read_once_per_process_witness :
  totalOver initCalls
    (uploaders
       (runProcess Path.basename
          [WorkspaceFoldersChanged true true;
           WorkspaceFoldersChanged true false]
          startOfProcess)) = 0.
Proof.
  apply (proj2 (proj2 (clean_on_start_read_once_per_process Path.basename
           [WorkspaceFoldersChanged true true;
            WorkspaceFoldersChanged true false]))).
  reflexivity.
Defined.

(** ** [clean.on.start] and the first start of the transport (C8) *)

(** C8, as stated, fails: an explicit clean request does not make
    [cleanOnStart] true.  With the uploader disabled at start and the
    setting off, [clean.upload] opens the first session of the process,
    and that session hands [cleanOnStart = false] to the transport; so
    does the session opened by an [enable.upload] that follows the clean
    request, when it is the first to reach the transport. *)
Lemma explicit_clean_is_handed_the_setting :
  let dwConf := mkDWConfig "dw.json" None None in
  let off := mkSettings false [] in
  map init_cleanOnStart
      (inits (runEvents Path.basename
                [Started false; CommandBus clean_upload;
                 CartridgesResolved 0 dwConf ["/ws/cartridges/app_core"] off]
                newUploader))
    = [false]
  /\ map init_cleanOnStart
         (inits (runEvents Path.basename
                   [Started false; CommandBus clean_upload;
                    CommandBus enable_upload;
                    CartridgesResolved 1 dwConf ["/ws/cartridges/app_core"]
                                       off]
                   newUploader))
     = [false].
Proof. split; reflexivity. Qed.

Section ProcessFirstInit.

Variable basename : string -> string.

Lemma deliver_inits_grow (e : Event) (fc : bool) (w : World)
    (ws : list World) :
  InitsGrow fc (w :: ws)
    (firstClean (step basename e (set_firstClean fc w)))
    (step basename e (set_firstClean fc w) :: ws).
Proof.
  unfold InitsGrow. rewrite !totalOver_cons. unfold initCalls.
  destruct (deliver_clean basename e fc w) as [[F [_ I]]|[c [I [F _]]]].
  - left. rewrite F, I. split; reflexivity.
  - right. rewrite F, I, length_app. simpl. split; [reflexivity|lia].
Qed.

Lemma InitsGrow_refl (fc : bool) (ws : list World) : InitsGrow fc ws fc ws.
Proof. left. split; reflexivity. Qed.

Lemma InitsGrow_trans (fc fc' fc'' : bool) (a b c : list World) :
  InitsGrow fc a fc' b -> InitsGrow fc' b fc'' c -> InitsGrow fc a fc'' c.
Proof.
  unfold InitsGrow. intros [[E1 L1]|[E1 L1]] [[E2 L2]|[E2 L2]].
  - left. split; congruence.
  - right. split; [assumption|lia].
  - right. split; [congruence|lia].
  - right. split; [assumption|lia].
Qed.

Lemma InitsGrow_under (w : World) (fc fc' : bool) (a b : list World) :
  InitsGrow fc a fc' b -> InitsGrow fc (w :: a) fc' (w :: b).
Proof.
  unfold InitsGrow. rewrite !totalOver_cons. intros [[E L]|[E L]].
  - left. split; [assumption|lia].
  - right. split; [assumption|lia].
Qed.

Lemma broadcast_inits_grow (e : Event) (fc : bool) (ws : list World) :
  InitsGrow fc ws (fst (broadcast basename e fc ws))
            (snd (broadcast basename e fc ws)).
Proof.
  induction ws as [|w ws IH]; simpl; [apply InitsGrow_refl|].
  apply (InitsGrow_trans fc (fst (broadcast basename e fc ws)) _ _
           (w :: snd (broadcast basename e fc ws))).
  - now apply InitsGrow_under.
  - apply deliver_inits_grow.
Qed.

Lemma deliverTo_inits_grow (i : nat) (e : Event) (fc : bool)
    (ws : list World) :
  InitsGrow fc ws (fst (deliverTo basename i e fc ws))
            (snd (deliverTo basename i e fc ws)).
Proof.
  revert i. induction ws as [|w ws IH]; intros i;
    [destruct i; apply InitsGrow_refl|].
  destruct i as [|j]; simpl.
  - apply deliver_inits_grow.
  - specialize (IH j).
    destruct (deliverTo basename j e fc ws) as [fc' older'].
    simpl in *. now apply InitsGrow_under.
Qed.

Lemma FirstCleanUntilFirstInit_step (fc fc' : bool) (a b : list World) :
  InitsGrow fc a fc' b ->
  FirstCleanUntilFirstInit fc a -> FirstCleanUntilFirstInit fc' b.
Proof.
  unfold InitsGrow, FirstCleanUntilFirstInit.
  intros [[E L]|[E L]] H.
  - now rewrite E, L.
  - rewrite E. split; [discriminate|lia].
Qed.

Lemma processStep_first_init (e : ProcessEvent) (p : Process) :
  FirstCleanUntilFirstInit (moduleFirstClean p) (uploaders p) ->
  FirstCleanUntilFirstInit (moduleFirstClean (processStep basename e p))
                           (uploaders (processStep basename e p)).
Proof.
  intros H. destruct e as [c|en|i e|folders en]; simpl.
  - pose proof (broadcast_inits_grow (CommandBus c) (moduleFirstClean p)
                  (uploaders p)) as K.
    destruct (broadcast basename (CommandBus c) (moduleFirstClean p)
                (uploaders p)) as [fc ws].
    simpl in *. now apply (FirstCleanUntilFirstInit_step _ _ _ _ K).
  - pose proof (broadcast_inits_grow (ConfigurationChanged en)
                  (moduleFirstClean p) (uploaders p)) as K.
    destruct (broadcast basename (ConfigurationChanged en)
                (moduleFirstClean p) (uploaders p)) as [fc ws].
    simpl in *. now apply (FirstCleanUntilFirstInit_step _ _ _ _ K).
  - destruct (fromSession e); [|assumption].
    pose proof (deliverTo_inits_grow i e (moduleFirstClean p)
                  (uploaders p)) as K.
    destruct (deliverTo basename i e (moduleFirstClean p) (uploaders p))
      as [fc ws].
    simpl in *. now apply (FirstCleanUntilFirstInit_step _ _ _ _ K).
  - unfold updateFolders.
    assert (K : InitsGrow (moduleFirstClean p) (uploaders p)
                  (fst (if subs p
                        then deliverTo basename 0 Disposed
                               (moduleFirstClean p) (uploaders p)
                        else (moduleFirstClean p, uploaders p)))
                  (snd (if subs p
                        then deliverTo basename 0 Disposed
                               (moduleFirstClean p) (uploaders p)
                        else (moduleFirstClean p, uploaders p)))).
    { destruct (subs p); [apply deliverTo_inits_grow|].
      apply InitsGrow_refl. }
    destruct (if subs p
              then deliverTo basename 0 Disposed (moduleFirstClean p)
                             (uploaders p)
              else (moduleFirstClean p, uploaders p)) as [fc ws].
    simpl in K.
    pose proof (FirstCleanUntilFirstInit_step _ _ _ _ K H) as H1.
    destruct folders; simpl; [|assumption].
    pose proof (deliver_inits_grow (Started en) fc newUploader ws) as K2.
    apply (FirstCleanUntilFirstInit_step _ _ _ _ K2).
    unfold FirstCleanUntilFirstInit in *. rewrite totalOver_cons.
    exact H1.
Qed.

Lemma runProcess_first_init (events : list ProcessEvent) (p : Process) :
  FirstCleanUntilFirstInit (moduleFirstClean p) (uploaders p) ->
  FirstCleanUntilFirstInit
    (moduleFirstClean (runProcess basename events p))
    (uploaders (runProcess basename events p)).
Proof.
  revert p. induction events as [|e events IH]; intros p H; simpl.
  - assumption.
  - apply IH. now apply processStep_first_init.
Qed.

(** The uploader at position [i] is the one that handles the event. *)
Lemma deliverTo_nth (i : nat) (e : Event) (fc : bool) (ws : list World)
    (w : World) :
  nth_error ws i = Some w ->
  fst (deliverTo basename i e fc ws)
  = firstClean (step basename e (set_firstClean fc w))
  /\ nth_error (snd (deliverTo basename i e fc ws)) i
     = Some (step basename e (set_firstClean fc w)).
Proof.
  revert i. induction ws as [|x ws IH]; intros i H;
    [destruct i; discriminate|].
  destruct i as [|j]; simpl in *.
  - inversion H. subst. split; reflexivity.
  - specialize (IH j H).
    destruct (deliverTo basename j e fc ws) as [fc' older'].
    exact IH.
Qed.

End ProcessFirstInit.

(** C8, amended: over the whole process, across every uploader, the
    [clean.on.start] setting is read at most once: by the first session
    that reaches [uploadServer.init], whatever opened that session - the
    initial start, [enable.upload], [clean.upload] or a flip of the
    enabled flag.  That call is handed the setting's value as
    [cleanOnStart]; every later call, of any session of any uploader, is
    handed [true].  [firstClean] is set exactly as long as the transport
    has never been started. *)
Theorem clean_on_start_read_by_first_transport_start
    (basename : string -> string) (events : list ProcessEvent) :
  let p := runProcess basename events startOfProcess in
  totalOver cleanOnStartReads (uploaders p) <= 1
  /\ (moduleFirstClean p = true <-> totalOver initCalls (uploaders p) = 0)
  /\ (forall i w s dwConf cartridges settings,
        nth_error (uploaders p) i = Some w ->
        isOpen s w = true ->
        let p' := processStep basename
                    (FromSession i
                       (CartridgesResolved s dwConf cartridges settings))
                    p in
        exists w' c,
          nth_error (uploaders p') i = Some w'
          /\ inits w' = (inits w ++ [c])%list
          /\ init_session c = s
          /\ init_cleanOnStart c
             = (if moduleFirstClean p then clean_on_start settings
                else true)
          /\ moduleFirstClean p' = false).
Proof.
  intros p.
  assert (H : CleanReadOncePerProcess (moduleFirstClean p) (uploaders p)).
  { apply runProcess_clean. left.
    split; [reflexivity|]. split; [reflexivity|]. split; reflexivity. }
  assert (G : FirstCleanUntilFirstInit (moduleFirstClean p) (uploaders p)).
  { apply runProcess_first_init. split; reflexivity. }
  split; [|split; [exact G|]].
  - destruct H as [[_ [R _]]|[_ [R _]]]; lia.
  - intros i w s dwConf cartridges settings N O. simpl.
    destruct (deliverTo_nth basename i
                (CartridgesResolved s dwConf cartridges settings)
                (moduleFirstClean p) (uploaders p) w N) as [F X].
    destruct (deliverTo basename i
                (CartridgesResolved s dwConf cartridges settings)
                (moduleFirstClean p) (uploaders p)) as [fc ws].
    simpl in *.
    assert (O' : isOpen s (set_firstClean (moduleFirstClean p) w) = true)
      by exact O.
    rewrite O' in F, X.
    destruct (onCartridges_init basename s dwConf cartridges settings
                (set_firstClean (moduleFirstClean p) w))
      as [I [Fc _]].
    eexists. eexists. split; [exact X|]. split; [exact I|].
    split; [reflexivity|]. split; [reflexivity|].
    rewrite F. exact Fc.
Qed.

Lemma clean_on_start_read_by_first_transport_start_witness :
  let dwConf := mkDWConfig "dw.json" None None in
  let off := mkSettings false [] in
  let p := runProcess Path.basename
             [WorkspaceFoldersChanged true false;
              CommandIssued clean_upload] startOfProcess in
  let p' := processStep Path.basename
              (FromSession 0
                 (CartridgesResolved 0 dwConf ["/ws/cartridges/app_core"]
                                     off)) p in
  exists w' c,
    nth_error (uploaders p') 0 = Some w'
    /\ inits w' = (inits (nth 0 (uploaders p) newUploader) ++ [c])%list
    /\ init_session c = 0
    /\ init_cleanOnStart c
       = (if moduleFirstClean p then clean_on_start off else true)
    /\ moduleFirstClean p' = false.
Proof.
  exact (proj2 (proj2 (clean_on_start_read_by_first_transport_start
           Path.basename
           [WorkspaceFoldersChanged true false; CommandIssued clean_upload]))
           0 _ 0 (mkDWConfig "dw.json" None None)
           ["/ws/cartridges/app_core"] (mkSettings false [])
           eq_refl eq_refl).
Defined.

(** ** The request handler as a whole *)

Section ToolkitServerFacts.

Variable pathJoin : string -> string -> string.
Variable sep : string.
Variable existsSync : string -> bool.



End ToolkitServerFacts.


